(** * ecpps: the component store and the entity lifecycle of [ecpps.h]

    A shallow embedding of the single header [src/ecpps.h]: the typed
    component array [ComponentVector<T>], the type-erased registry
    [ComponentManager] and the world [ECSManager] with its identifier
    allocator, followed by the properties of the specification that they
    decide.

    Conventions of the embedding.
    - [ID] is C++ [unsigned]: a natural number below [2^32]; the wrap-around
      of [nextID++] and of the narrowing [unsigned index = components.size()]
      is written out with [wrap].
    - [std::map] is a [gmap], [std::set] a [gset], [std::vector] a [list]
      whose [back()] is the last element.
    - A call either returns, throws ([std::out_of_range] is the only
      exception the modelled code raises; allocation failure is not
      modelled), or has undefined behaviour ([vector::erase] past the end).
      Every operation is a state transformer returning an [outcome]
      together with the state at the point where it stopped: what was
      mutated before a throw stays mutated.
    - The diagnostic lines written to [std::cout] are not modelled.
    - The system lists and the named-entity table of [ECSManager] play no
      part in the operations below and are left out of the world record. *)

From stdpp Require Import gmap list sorting.

#[local] Set Warnings "-clear-no-such-hyp".

Local Open Scope N_scope.

(** ** Machine integers *)

(** [typedef unsigned ID;] *)
Abbreviation ID := N (only parsing).

Definition UNSIGNED_BITS : N := 32.

(** Reduction of a mathematical value to the range of [unsigned]. *)
Definition wrap (n : N) : N := n mod 2 ^ UNSIGNED_BITS.

(** ** Outcomes of a call *)

Inductive exn : Type :=
  | out_of_range.

Inductive outcome (A : Type) : Type :=
  | Ret (a : A)
  | Throw (e : exn)
  | Undefined.
Arguments Ret {A} a.
Arguments Throw {A} e.
Arguments Undefined {A}.

(** A computation over a mutable object of type [S]. *)
Definition M (S A : Type) : Type := S → outcome A * S.

Definition ret {S A} (a : A) : M S A := λ s, (Ret a, s).

Definition bind {S A B} (c : M S A) (k : A → M S B) : M S B :=
  λ s, match c s with
       | (Ret a, s') => k a s'
       | (Throw e, s') => (Throw e, s')
       | (Undefined, s') => (Undefined, s')
       end.

Notation "'call' x <- c ; k" := (bind c (λ x, k))
  (at level 10, x name, c at level 100, k at level 200,
   format "'[v' 'call'  x  <-  c ; '/' k ']'").
Notation "'exec' c ; k" := (bind c (λ _, k))
  (at level 10, c at level 100, k at level 200,
   format "'[v' 'exec'  c ; '/' k ']'").

(** [std::map::insert]: the element is inserted only when the key is free. *)
Definition map_insert_new {V} (k : N) (v : V) (m : gmap N V) : gmap N V :=
  match m !! k with
  | Some _ => m
  | None => <[k:=v]> m
  end.

(** [std::map::operator[]] on a map of [unsigned]: a missing key is first
    inserted with the value-initialised element [0]. *)
Definition map_subscript (k : N) (m : gmap N N) : N * gmap N N :=
  match m !! k with
  | Some v => (v, m)
  | None => (0, <[k:=0]> m)
  end.

(** ** [ComponentVector<T>] *)

Module ComponentVector.
Section defs.
Context {T : Type}.

Record t : Type := Build {
  (* holds indexes of entityID *)
  indexes : gmap N N;
  (* holds vector of components *)
  components : list T;
  (* holds a list of entities *)
  entities : gset N;
  (* holds a seperate list of entities to init *)
  newEntities : gset N
}.

(** The default-constructed array of [std::make_shared<ComponentVector<T>>()]. *)
Definition empty : t :=
  {| indexes := ∅; components := []; entities := ∅; newEntities := ∅ |}.

Definition set_indexes (m : gmap N N) (cv : t) : t :=
  {| indexes := m; components := components cv;
     entities := entities cv; newEntities := newEntities cv |}.

Definition addComponent (entityID : ID) (component : T) : M t unit := λ cv,
  let index :=
    match components cv with
    | [] => 0                                             (* components.empty() *)
    | _ => wrap (N.of_nat (length (components cv)))       (* components.size() *)
    end in
  (Ret tt,
   {| indexes := map_insert_new entityID index (indexes cv);
      newEntities := {[entityID]} ∪ newEntities cv;
      components := components cv ++ [component];
      entities := entities cv |}).

(** The loop over [indexes] rewrites every value above the erased slot;
    [value - 1] cannot wrap since [value > index >= 0]. *)
Definition shift_down (index value : N) : N :=
  if decide (index < value) then value - 1 else value.

Definition removeEntity (entityID : ID) : M t unit := λ cv,
  match indexes cv !! entityID with
  | None => (Throw out_of_range, cv)                      (* indexes.at *)
  | Some index =>
      let erased := delete entityID (indexes cv) in       (* indexes.erase *)
      if decide (index < N.of_nat (length (components cv))) then
        (Ret tt,
         {| indexes := shift_down index <$> erased;
            components := delete (N.to_nat index) (components cv);
            entities := entities cv;
            newEntities := newEntities cv |})
      else
        (* components.erase(components.begin() + index) past the end *)
        (Undefined, set_indexes erased cv)
  end.

Definition getComponent (entityID : ID) : M t T := λ cv,
  (* indexes[entityID] *)
  let '(index, indexes') := map_subscript entityID (indexes cv) in
  let cv' := set_indexes indexes' cv in
  (* components.at(index) *)
  match components cv !! N.to_nat index with
  | Some component => (Ret component, cv')
  | None => (Throw out_of_range, cv')
  end.

Definition getComponentEntities : M t (gset N) := λ cv, (Ret (entities cv), cv).

Definition getNewComponentEntities : M t (gset N) := λ cv, (Ret (newEntities cv), cv).

Definition groupEntities : M t unit := λ cv,
  (Ret tt,
   {| indexes := indexes cv;
      components := components cv;
      (* entities.insert(newEntities.begin(), newEntities.end()) *)
      entities := entities cv ∪ newEntities cv;
      (* newEntities.clear() *)
      newEntities := ∅ |}).
End defs.
Arguments t : clear implicits.
End ComponentVector.

(** ** [ComponentManager] *)

(** What the templates read off a type argument [T]: the address
    [typeid(T).name()] that keys the registry, and
    [is_base_of<Component,T>::value]. *)
Record TypeInfo : Type := {
  typekey : N;
  is_component : bool
}.

Module ComponentManager.
Section defs.
(** The registry is heterogeneous in C++; here every array stores values of
    one universe [C] of component values, and the static type of an array
    is the key it is registered under. *)
Context {C : Type}.

Record t : Type := Build {
  componentVectors : gmap N (ComponentVector.t C)
}.

Definition empty : t := {| componentVectors := ∅ |}.

(** [getComponentVector<T>()] hands out a shared pointer to the array
    stored under [T]'s key. Entries are never replaced or erased, so the
    pointer is identified with the key, and a method call through it acts
    on the stored array ([through]). *)
Definition getComponentVector (T : TypeInfo) : M t N := λ cm,
  let typekey := typekey T in
  match componentVectors cm !! typekey with
  | None =>
      (Ret typekey,
       {| componentVectors := <[typekey := ComponentVector.empty]> (componentVectors cm) |})
  | Some _ => (Ret typekey, cm)
  end.

Definition through {A} (p : N) (method : M (ComponentVector.t C) A) : M t A := λ cm,
  match componentVectors cm !! p with
  | Some v =>
      let '(r, v') := method v in
      (r, {| componentVectors := <[p := v']> (componentVectors cm) |})
  | None => (Undefined, cm)
  end.

Definition addComponent (T : TypeInfo) (entityID : ID) (component : C) : M t unit :=
  call p <- getComponentVector T;
  through p (ComponentVector.addComponent entityID component).

Definition getComponent (T : TypeInfo) (entityID : ID) : M t C :=
  call p <- getComponentVector T;
  through p (ComponentVector.getComponent entityID).

Definition getComponentEntities (T : TypeInfo) : M t (gset N) :=
  call p <- getComponentVector T;
  through p ComponentVector.getComponentEntities.

Definition getNewComponentEntities (T : TypeInfo) : M t (gset N) :=
  call p <- getComponentVector T;
  through p ComponentVector.getNewComponentEntities.

Definition groupEntities (T : TypeInfo) : M t unit :=
  call p <- getComponentVector T;
  through p ComponentVector.groupEntities.

(** A range-for over the registry visits the keys in ascending order and
    stops at the first call that does not return. *)
Fixpoint for_each (keys : list N) (body : N → M t unit) : M t unit :=
  match keys with
  | [] => ret tt
  | key :: rest => exec body key; for_each rest body
  end.

Definition keys (cm : t) : list N :=
  merge_sort N.le (elements (dom (componentVectors cm))).

Definition removeEntity (entityID : ID) : M t unit := λ cm,
  for_each (keys cm) (λ key, through key (ComponentVector.removeEntity entityID)) cm.
End defs.
Arguments t : clear implicits.
End ComponentManager.

(** ** [Entity] and [ECSManager] *)

(** The facade: its id; the back-reference to the one world is implicit.
    Only the base class is modelled, whose [init] hook is empty. *)
Record Entity : Type := {
  entityID : N
}.

Definition getID (e : Entity) : ID := entityID e.

Module ECSManager.
Section defs.
Context {C : Type}.

Record t : Type := Build {
  (* holds the id for this manager *)
  managerID : N;
  (* holds all component vectors *)
  components : ComponentManager.t C;
  (* holds all Entity class objects *)
  entities : gmap N Entity;
  (* holds current value to generate new entityIDs *)
  nextID : N;
  (* holds all IDs that once belonged to entities that have been deleted *)
  reusableIDs : list N
}.

Definition set_managerID (i : N) (w : t) : t :=
  {| managerID := i; components := components w; entities := entities w;
     nextID := nextID w; reusableIDs := reusableIDs w |}.
Definition set_components (c : ComponentManager.t C) (w : t) : t :=
  {| managerID := managerID w; components := c; entities := entities w;
     nextID := nextID w; reusableIDs := reusableIDs w |}.
Definition set_entities (e : gmap N Entity) (w : t) : t :=
  {| managerID := managerID w; components := components w; entities := e;
     nextID := nextID w; reusableIDs := reusableIDs w |}.
Definition set_nextID (n : N) (w : t) : t :=
  {| managerID := managerID w; components := components w; entities := entities w;
     nextID := n; reusableIDs := reusableIDs w |}.
Definition set_reusableIDs (l : list N) (w : t) : t :=
  {| managerID := managerID w; components := components w; entities := entities w;
     nextID := nextID w; reusableIDs := l |}.

(** A call on the member [components]. *)
Definition on_components {A} (method : M (ComponentManager.t C) A) : M t A := λ w,
  let '(r, c) := method (components w) in (r, set_components c w).

Definition generateEntityID : M t ID := λ w,
  match last (reusableIDs w) with
  | Some toReturn =>
      (* reusableIDs.back(), then pop_back() *)
      (Ret toReturn, set_reusableIDs (removelast (reusableIDs w)) w)
  | None =>
      (* reusableIDs.size() == 0 *)
      (Ret (nextID w), set_nextID (wrap (nextID w + 1)) w)
  end.

(** [entities.at(id)] *)
Definition entities_at (id : ID) : M t Entity := λ w,
  match entities w !! id with
  | Some e => (Ret e, w)
  | None => (Throw out_of_range, w)
  end.

(** [createEntity()], that is [createEntity<Entity>()]. *)
Definition createEntity : M t Entity :=
  call newID <- generateEntityID;
  let entity := {| entityID := newID |} in
  exec (λ w, (Ret tt, set_entities (map_insert_new newID entity (entities w)) w));
  entities_at newID.

Definition destroyEntity (entityID : ID) : M t unit :=
  call toDestroy <- entities_at entityID;
  exec on_components (ComponentManager.removeEntity entityID);
  exec (λ w, (Ret tt, set_entities (delete entityID (entities w)) w));
  λ w, (Ret tt, set_reusableIDs (reusableIDs w ++ [entityID]) w).

Definition addComponent (T : TypeInfo) (entityID : ID) (component : C) : M t unit :=
  if is_component T
  then on_components (ComponentManager.addComponent T entityID component)
  else ret tt.

(** The one-argument overload [addComponent<T>(component)]. *)
Definition addComponent_self (T : TypeInfo) (component : C) : M t unit := λ w,
  addComponent T (managerID w) component w.

(** Without the marker the function flows off its end without returning a
    reference. *)
Definition getComponentEntities (T : TypeInfo) : M t (gset N) :=
  if is_component T
  then on_components (ComponentManager.getComponentEntities T)
  else λ w, (Undefined, w).

Definition getNewComponentEntities (T : TypeInfo) : M t (gset N) :=
  on_components (ComponentManager.getNewComponentEntities T).

Definition groupEntities (T : TypeInfo) : M t unit :=
  on_components (ComponentManager.groupEntities T).

Definition getComponent (T : TypeInfo) (entityID : ID) : M t C :=
  on_components (ComponentManager.getComponent T entityID).

(** The zero-argument overload [getComponent<T>()]. *)
Definition getComponent_self (T : TypeInfo) : M t C := λ w,
  getComponent T (managerID w) w.

(** The members as they are before the constructor body runs; [managerID]
    is written by the constructor before anything reads it. *)
Definition blank : t :=
  {| managerID := 0; components := ComponentManager.empty; entities := ∅;
     nextID := 0; reusableIDs := [] |}.

(** [ECSManager::ECSManager()] *)
Definition construct : M t unit :=
  call thisEntity <- createEntity;
  λ w, (Ret tt, set_managerID (getID thisEntity) w).

(** The world a caller gets from the constructor. *)
Definition fresh : t := (construct blank).2.
End defs.
Arguments t : clear implicits.
End ECSManager.


(** ** Call sequences on one array *)

Module Trace.
Section defs.
Context {T : Type}.

Inductive op : Type :=
  | Add (entityID : ID) (component : T)
  | Remove (entityID : ID)
  | Group.

Definition step (o : op) : M (ComponentVector.t T) unit :=
  match o with
  | Add entityID component => ComponentVector.addComponent entityID component
  | Remove entityID => ComponentVector.removeEntity entityID
  | Group => ComponentVector.groupEntities
  end.

Fixpoint run (ops : list op) : M (ComponentVector.t T) unit :=
  match ops with
  | [] => ret tt
  | o :: rest => exec step o; run rest
  end.

(** The callers' obligations: an id is a value of [unsigned], a component is
    added only for an id that is not keyed, and an entity is removed only
    from an array that keys it. *)
Definition admissible (o : op) (cv : ComponentVector.t T) : bool :=
  match o with
  | Add entityID _ =>
      bool_decide (entityID < 2 ^ UNSIGNED_BITS)
      && bool_decide (ComponentVector.indexes cv !! entityID = None)
  | Remove entityID => bool_decide (is_Some (ComponentVector.indexes cv !! entityID))
  | Group => true
  end.

Fixpoint legal (ops : list op) (cv : ComponentVector.t T) : bool :=
  match ops with
  | [] => true
  | o :: rest => admissible o cv && legal rest (step o cv).2
  end.

Definition is_removal (o : op) : bool :=
  match o with
  | Remove _ => true
  | _ => false
  end.

(** No [removeEntity] among the calls. *)
Definition removal_free (ops : list op) : bool := forallb (λ o, negb (is_removal o)) ops.
End defs.
Arguments op : clear implicits.
End Trace.

(** * Vocabulary of the properties *)

(** ** Dense arrays *)

Section dense.
Context {T : Type}.
Implicit Types (cv : ComponentVector.t T).
Import ComponentVector.

(** The state of an array that was only ever used within the callers'
    obligations: as many rows as keys, the slots are distinct positions of
    the vector, the keys are values of [unsigned], and every key is in one
    of the two entity sets. *)
Record dense cv : Prop := {
  dense_length : length (components cv) = size (indexes cv);
  dense_range : ∀ id k, indexes cv !! id = Some k → k < N.of_nat (length (components cv));
  dense_inj : ∀ i j k, indexes cv !! i = Some k → indexes cv !! j = Some k → i = j;
  dense_ids : ∀ id k, indexes cv !! id = Some k → id < 2 ^ UNSIGNED_BITS;
  dense_keyed : dom (indexes cv) ⊆ entities cv ∪ newEntities cv
}.

(** The keys of the index map are exactly the members of the two entity
    sets, and no id is in both. *)
Definition tracked cv : Prop :=
  dom (indexes cv) = entities cv ∪ newEntities cv ∧
  entities cv ∩ newEntities cv = ∅.

(** The state of an array to which no component was ever added: only
    [addComponent] appends a row or puts an id into one of the sets. *)
Definition unpopulated cv : Prop :=
  components cv = [] ∧ entities cv = ∅ ∧ newEntities cv = ∅.
End dense.

(** ** Views of one type's array *)

Section views.
Context {C : Type}.
Implicit Types (cm : ComponentManager.t C) (w : ECSManager.t C) (T : TypeInfo).
Import ComponentManager ECSManager.

(** The array a call of [getComponentVector<T>()] works on: the registered
    one, or the empty one it is about to register. *)
Definition array_of T cm : ComponentVector.t C :=
  default ComponentVector.empty (componentVectors cm !! typekey T).

(** The array of [T] as the world sees it. *)
Definition world_array T w : ComponentVector.t C := array_of T (ECSManager.components w).

(** The world after a method of [T]'s array has left it in state [v]. *)
Definition with_array T (v : ComponentVector.t C) w : ECSManager.t C :=
  set_components
    {| ComponentManager.componentVectors :=
         <[typekey T := v]> (ComponentManager.componentVectors (components w)) |} w.
End views.

(** ** Scenarios on a world of numeric payloads *)

Module Scenario.
Import ECSManager.

Abbreviation world := (ECSManager.t N).

Definition Position : TypeInfo := {| typekey := 1; is_component := true |}.
Definition Velocity : TypeInfo := {| typekey := 2; is_component := true |}.

(** Five [createEntity] calls, the third and the fifth facade destroyed in
    that order, three further [createEntity] calls. Returns the ids of the
    first five and of the last three facades. *)
Definition five_created_third_and_fifth_destroyed : M world (list ID * list ID) :=
  call e0 <- createEntity;
  call e1 <- createEntity;
  call e2 <- createEntity;
  call e3 <- createEntity;
  call e4 <- createEntity;
  exec destroyEntity (getID e2);
  exec destroyEntity (getID e4);
  call a <- createEntity;
  call b <- createEntity;
  call c <- createEntity;
  ret ([getID e0; getID e1; getID e2; getID e3; getID e4], [getID a; getID b; getID c]).

(** [n] calls of [createEntity]; the ids of the facades. *)
Fixpoint create (n : nat) : M world (list ID) :=
  match n with
  | O => ret []
  | S n =>
      call e <- createEntity;
      call rest <- create n;
      ret (getID e :: rest)
  end.

(** [n] calls of [createEntity], then the entities with ids 2 and 4 destroyed
    in that order, three further [createEntity] calls. *)
Definition ids_2_and_4_destroyed (n : nat) : M world (list ID * list ID) :=
  call created <- create n;
  exec destroyEntity 2;
  exec destroyEntity 4;
  call a <- createEntity;
  call b <- createEntity;
  call c <- createEntity;
  ret (created, [getID a; getID b; getID c]).

(** Scenario A: three entities with payloads 0, 1, 2; the middle one is
    destroyed; the payload of the last one is read. *)
Definition middle_entity_destroyed : M world (list ID * N) :=
  call e0 <- createEntity;
  call e1 <- createEntity;
  call e2 <- createEntity;
  exec addComponent Position (getID e0) 0;
  exec addComponent Position (getID e1) 1;
  exec addComponent Position (getID e2) 2;
  exec destroyEntity (getID e1);
  call x <- getComponent Position (getID e2);
  ret ([getID e0; getID e1; getID e2], x).

(** Two entities, a component for the first one only, the second one
    destroyed. *)
Definition entity_without_component_destroyed : M world unit :=
  call e1 <- createEntity;
  call e2 <- createEntity;
  exec addComponent Position (getID e1) 7;
  destroyEntity (getID e2).

(** An array with the one row [7] of entity 1. *)
Definition one_row : ComponentVector.t N :=
  (ComponentVector.addComponent 1 7 ComponentVector.empty).2.
End Scenario.

(** * Further code and vocabulary *)

(** ** [Entity]'s methods *)

Module EntityMethods.
Section defs.
Context {C : Type}.

(** [Entity::addComponent<T>(component)] *)
Definition addComponent (T : TypeInfo) (component : C) (this : Entity) :
    M (ECSManager.t C) unit :=
  if is_component T
  then ECSManager.addComponent T (entityID this) component
  else ret tt.

End defs.
End EntityMethods.

(** ** Call sequences on a world *)

Module WorldTrace.
Section defs.
Context {C : Type}.

(** The public operations of [ECSManager] on entities and components. *)
Inductive op : Type :=
  | CreateEntity
  | DestroyEntity (entityID : ID)
  | AddComponent (T : TypeInfo) (entityID : ID) (component : C)
  | AddComponentSelf (T : TypeInfo) (component : C)
  | GetComponent (T : TypeInfo) (entityID : ID)
  | GetComponentSelf (T : TypeInfo)
  | GetComponentEntities (T : TypeInfo)
  | GetNewComponentEntities (T : TypeInfo)
  | GroupEntities (T : TypeInfo).

(** A call whose result the caller drops. *)
Definition discard {A} (c : M (ECSManager.t C) A) : M (ECSManager.t C) unit :=
  call _ <- c;
  ret tt.

Definition step (o : op) : M (ECSManager.t C) unit :=
  match o with
  | CreateEntity => discard ECSManager.createEntity
  | DestroyEntity entityID => ECSManager.destroyEntity entityID
  | AddComponent T entityID component => ECSManager.addComponent T entityID component
  | AddComponentSelf T component => ECSManager.addComponent_self T component
  | GetComponent T entityID => discard (ECSManager.getComponent T entityID)
  | GetComponentSelf T => discard (ECSManager.getComponent_self T)
  | GetComponentEntities T => discard (ECSManager.getComponentEntities T)
  | GetNewComponentEntities T => discard (ECSManager.getNewComponentEntities T)
  | GroupEntities T => ECSManager.groupEntities T
  end.

(** The world after the calls of [ops], made one after the other by a caller
    that catches every exception and goes on with the world as the throwing
    call left it; [None] when a call has undefined behaviour. *)
Fixpoint perform (ops : list op) (w : ECSManager.t C) : option (ECSManager.t C) :=
  match ops with
  | [] => Some w
  | o :: rest =>
      match step o w with
      | (Undefined, _) => None
      | (_, w') => perform rest w'
      end
  end.
End defs.
Arguments op : clear implicits.
End WorldTrace.

(** ** The map an array stands for *)

Section contents.
Context {T : Type}.

(** The finite map from entity ids to components that a sequence of calls
    on one array describes. *)
Fixpoint contents (ops : list (Trace.op T)) (m : gmap N T) : gmap N T :=
  match ops with
  | [] => m
  | Trace.Add entityID component :: rest => contents rest (<[entityID := component]> m)
  | Trace.Remove entityID :: rest => contents rest (delete entityID m)
  | Trace.Group :: rest => contents rest m
  end.

(** The component the array holds for [id], if [id] is keyed at a row. *)
Definition component_of (cv : ComponentVector.t T) (id : N) : option T :=
  k ← ComponentVector.indexes cv !! id;
  ComponentVector.components cv !! N.to_nat k.
End contents.

(** ** The lifecycle state of a world *)

Section lifecycle.
Context {C : Type}.
Implicit Types (w : ECSManager.t C).
Import ECSManager.

(** Every live id and every pooled id was handed out by the counter, the
    pool holds no id twice and no live id, and each facade is stored under
    its own id. *)
Record well_allocated w : Prop := {
  live_below_next : ∀ id e, entities w !! id = Some e → id < nextID w;
  pool_below_next : ∀ id, id ∈ reusableIDs w → id < nextID w;
  pool_NoDup : NoDup (reusableIDs w);
  pool_not_live : ∀ id, id ∈ reusableIDs w → entities w !! id = None;
  stored_under_own_id : ∀ id e, entities w !! id = Some e → getID e = id
}.

(** Two worlds with the same facade table, counter, pool and own id. *)
Definition same_lifecycle w w' : Prop :=
  entities w' = entities w ∧ nextID w' = nextID w ∧
  reusableIDs w' = reusableIDs w ∧ managerID w' = managerID w.
End lifecycle.

(** The component type a call works on, for the calls that go to one
    type's array. *)
Definition op_type {C} (o : WorldTrace.op C) : option TypeInfo :=
  match o with
  | WorldTrace.CreateEntity | WorldTrace.DestroyEntity _ => None
  | WorldTrace.AddComponent T _ _ | WorldTrace.AddComponentSelf T _
  | WorldTrace.GetComponent T _ | WorldTrace.GetComponentSelf T
  | WorldTrace.GetComponentEntities T | WorldTrace.GetNewComponentEntities T
  | WorldTrace.GroupEntities T => Some T
  end.

(** ** Sample worlds *)

Module Sample.
Import ECSManager Scenario.

(** Entities 1 and 2; entity 1 has a [Position] 7 and a [Velocity] 8,
    entity 2 has a [Position] 9 only. *)
Definition populated : world :=
  ((call e1 <- createEntity;
    call e2 <- createEntity;
    exec addComponent Position (getID e1) 7;
    exec addComponent Velocity (getID e1) 8;
    addComponent Position (getID e2) 9) fresh).2.

(** The fresh world with the counter at its last value. *)
Definition exhausted : world := set_nextID (2 ^ UNSIGNED_BITS - 1) fresh.

(** Calls on a fresh world, one of which throws. *)
Definition calls : list (WorldTrace.op N) :=
  [WorldTrace.CreateEntity;
   WorldTrace.AddComponent Position 1 7;
   WorldTrace.DestroyEntity 5;
   WorldTrace.CreateEntity;
   WorldTrace.DestroyEntity 1;
   WorldTrace.CreateEntity;
   WorldTrace.GroupEntities Position].
End Sample.

(** * Properties *)

(** ** Arithmetic of [unsigned] *)

Lemma wrap_small (n : N) : n < 2 ^ UNSIGNED_BITS → wrap n = n.
Proof. intros Hn. unfold wrap. by apply N.mod_small. Qed.

Lemma wrap_bound (n : N) : wrap n < 2 ^ UNSIGNED_BITS.
Proof. unfold wrap. by apply N.mod_upper_bound. Qed.

Lemma wrap_top : wrap (2 ^ UNSIGNED_BITS - 1 + 1) = 0.
Proof. reflexivity. Qed.

(** ** [std::map] primitives *)

Lemma map_insert_new_fresh {V} (k : N) (v : V) (m : gmap N V) :
  m !! k = None → map_insert_new k v m = <[k:=v]> m.
Proof. intros H. unfold map_insert_new. by rewrite H. Qed.

Lemma map_insert_new_taken {V} (k : N) (v old : V) (m : gmap N V) :
  m !! k = Some old → map_insert_new k v m = m.
Proof. intros H. unfold map_insert_new. by rewrite H. Qed.

Lemma map_insert_new_lookup {V} (k : N) (v : V) (m : gmap N V) :
  map_insert_new k v m !! k = Some (default v (m !! k)).
Proof.
  unfold map_insert_new. destruct (m !! k) as [old|] eqn:E; simpl.
  - done.
  - by rewrite lookup_insert_eq.
Qed.

(** ** The typed array *)

Section component_vector.
Context {T : Type}.
Implicit Types (cv : ComponentVector.t T) (id k : N).
Import ComponentVector.

Lemma removeEntity_absent cv id :
  indexes cv !! id = None → removeEntity id cv = (Throw out_of_range, cv).
Proof. intros H. unfold removeEntity. by rewrite H. Qed.

Lemma removeEntity_present cv id k :
  indexes cv !! id = Some k →
  k < N.of_nat (length (components cv)) →
  removeEntity id cv =
    (Ret tt,
     {| indexes := shift_down k <$> delete id (indexes cv);
        components := delete (N.to_nat k) (components cv);
        entities := entities cv;
        newEntities := newEntities cv |}).
Proof.
  intros H Hk. unfold removeEntity. rewrite H.
  by rewrite decide_True.
Qed.

(** Removal never touches the two entity sets. *)
Lemma removeEntity_keeps_sets cv id r cv' :
  removeEntity id cv = (r, cv') →
  entities cv' = entities cv ∧ newEntities cv' = newEntities cv.
Proof.
  unfold removeEntity. destruct (indexes cv !! id) as [k|].
  - destruct (decide _); intros [= <- <-]; done.
  - intros [= <- <-]; done.
Qed.

Lemma getComponent_absent cv id :
  indexes cv !! id = None →
  getComponent id cv =
    (match components cv !! 0%nat with
     | Some c => Ret c
     | None => Throw out_of_range
     end,
     set_indexes (<[id:=0]> (indexes cv)) cv).
Proof.
  intros H. unfold getComponent, map_subscript. rewrite H.
  change (N.to_nat 0) with 0%nat.
  by destruct (components cv !! 0%nat).
Qed.

Lemma getComponent_present cv id k c :
  indexes cv !! id = Some k →
  components cv !! N.to_nat k = Some c →
  getComponent id cv = (Ret c, cv).
Proof.
  intros H Hc. unfold getComponent, map_subscript. rewrite H, Hc.
  by destruct cv.
Qed.

(** C4. [groupEntities] returns, empties the staged set and makes the live
    set the union of the previous live and staged sets; the index map and the
    component vector are kept as they are and have no influence on the
    resulting sets; promoting a second time changes nothing. *)
Theorem groupEntities_promotes cv :
  ∃ cv',
    groupEntities cv = (Ret tt, cv') ∧
    newEntities cv' = ∅ ∧
    entities cv' = entities cv ∪ newEntities cv ∧
    components cv' = components cv ∧
    indexes cv' = indexes cv ∧
    groupEntities cv' = (Ret tt, cv') ∧
    (∀ (indexes0 : gmap N N) (components0 : list T),
        groupEntities
          {| indexes := indexes0; components := components0;
             entities := entities cv; newEntities := newEntities cv |} =
          (Ret tt,
           {| indexes := indexes0; components := components0;
              entities := entities cv'; newEntities := newEntities cv' |})).
Proof.
  eexists. split; [reflexivity|]. simpl. repeat split.
  unfold groupEntities. simpl. by rewrite union_empty_r_L.
Qed.

(** C8. When [id] is keyed at slot [k] of the vector, [removeEntity id]
    returns; the vector loses row [k] and the later rows move down by one;
    [id] is no longer keyed; every other key keeps its slot when it is at
    most [k] and gets its slot minus one when it is above [k]; no key is
    added. *)
Theorem removeEntity_erases_and_shifts cv id k :
  indexes cv !! id = Some k →
  k < N.of_nat (length (components cv)) →
  ∃ cv',
    removeEntity id cv = (Ret tt, cv') ∧
    components cv' =
      take (N.to_nat k) (components cv) ++ drop (S (N.to_nat k)) (components cv) ∧
    indexes cv' !! id = None ∧
    (∀ other v, other ≠ id → indexes cv !! other = Some v →
       indexes cv' !! other = Some (if decide (k < v) then v - 1 else v)) ∧
    (∀ other, indexes cv !! other = None → indexes cv' !! other = None).
Proof.
  intros H Hk. eexists. split; [by apply removeEntity_present|]. simpl.
  split; [apply delete_take_drop|].
  split; [by rewrite lookup_fmap, lookup_delete_eq|].
  split.
  - intros other v Hne Hv. rewrite lookup_fmap, lookup_delete_ne, Hv by done.
    reflexivity.
  - intros other Hv. rewrite lookup_fmap.
    destruct (decide (id = other)) as [->|Hne].
    + by rewrite lookup_delete_eq.
    + by rewrite lookup_delete_ne, Hv.
Qed.

(** C9. When [id] is already keyed and [getComponent id] yields [first], a
    further [addComponent id second] leaves the index map as it is, appends
    one row to the vector, and [getComponent id] still yields [first]; in an
    array whose slots all lie inside the vector no key leads to the new
    row. *)
Theorem addComponent_again_keeps_first cv id k (first second : T) :
  indexes cv !! id = Some k →
  components cv !! N.to_nat k = Some first →
  (∀ other v, indexes cv !! other = Some v → v < N.of_nat (length (components cv))) →
  ∃ cv',
    addComponent id second cv = (Ret tt, cv') ∧
    indexes cv' = indexes cv ∧
    components cv' = components cv ++ [second] ∧
    components cv' !! length (components cv) = Some second ∧
    getComponent id cv = (Ret first, cv) ∧
    getComponent id cv' = (Ret first, cv') ∧
    (∀ other v, indexes cv' !! other = Some v → v ≠ N.of_nat (length (components cv))).
Proof.
  intros H Hfirst Hin. eexists. split; [reflexivity|]. simpl.
  assert (Hkeep : map_insert_new id
            match components cv with
            | [] => 0
            | _ :: _ => wrap (N.of_nat (length (components cv)))
            end (indexes cv) = indexes cv)
    by (by eapply map_insert_new_taken).
  rewrite Hkeep.
  split; [done|]. split; [done|].
  split; [by rewrite lookup_app_r, Nat.sub_diag|].
  split; [by eapply getComponent_present|].
  split.
  - eapply getComponent_present; simpl; [done|].
    rewrite lookup_app_l; [done|]. by eapply lookup_lt_Some.
  - intros other v Hv Heq. apply Hin in Hv. lia.
Qed.
End component_vector.

(** ** Density of the typed array *)

(** At most [b] numbers lie below [b]. *)
Lemma bounded_set_size (b : N) :
  ∀ X : gset N, (∀ x, x ∈ X → x < b) → N.of_nat (size X) ≤ b.
Proof.
  induction b as [|b IH] using N.peano_ind; intros X HX.
  - assert (X = ∅) as ->.
    { apply elem_of_equiv_empty_L. intros x Hx. apply HX in Hx. lia. }
    rewrite size_empty. lia.
  - assert (Hsub : X ⊆ (X ∖ {[b]}) ∪ {[b]}).
    { intros x Hx. destruct (decide (x = b)); set_solver. }
    apply subseteq_size in Hsub.
    rewrite size_union in Hsub by set_solver.
    rewrite size_singleton in Hsub.
    assert (N.of_nat (size (X ∖ {[b]})) ≤ b).
    { apply IH. intros x [Hx Hne]%elem_of_difference.
      apply HX in Hx. assert (x ≠ b) by set_solver. lia. }
    lia.
Qed.

Section dense_arrays.
Context {T : Type}.
Implicit Types (cv : ComponentVector.t T) (id k : N).
Import ComponentVector Trace.


Lemma dense_empty : dense (empty (T:=T)).
Proof.
  split; simpl; try (intros *; rewrite lookup_empty; discriminate).
  - by rewrite map_size_empty.
  - set_solver.
Qed.

(** A dense array with a free id has room for one more row below [2^32], so
    the narrowing of [components.size()] to [unsigned] loses nothing. *)
Lemma dense_room cv id :
  dense cv → id < 2 ^ UNSIGNED_BITS → indexes cv !! id = None →
  N.of_nat (length (components cv)) < 2 ^ UNSIGNED_BITS.
Proof.
  intros D Hid Hfree.
  pose proof (bounded_set_size (2 ^ UNSIGNED_BITS) ({[id]} ∪ dom (indexes cv))) as Hb.
  rewrite size_union, size_singleton, size_dom in Hb.
  - rewrite (dense_length _ D). apply N.lt_le_trans with (N.of_nat (1 + size (indexes cv))); [lia|].
    apply Hb. intros x [Hx|Hx]%elem_of_union.
    + apply elem_of_singleton in Hx. by subst.
    + apply elem_of_dom in Hx as [v Hv]. by eapply dense_ids.
  - apply not_elem_of_dom in Hfree. set_solver.
Qed.

Lemma addComponent_index cv :
  N.of_nat (length (components cv)) < 2 ^ UNSIGNED_BITS →
  match components cv with
  | [] => 0
  | _ :: _ => wrap (N.of_nat (length (components cv)))
  end = N.of_nat (length (components cv)).
Proof.
  intros Hlen. destruct (components cv) eqn:E; [done|]. by apply wrap_small.
Qed.

Lemma addComponent_fresh cv id (c : T) :
  indexes cv !! id = None →
  N.of_nat (length (components cv)) < 2 ^ UNSIGNED_BITS →
  addComponent id c cv =
    (Ret tt,
     {| indexes := <[id := N.of_nat (length (components cv))]> (indexes cv);
        components := components cv ++ [c];
        entities := entities cv;
        newEntities := {[id]} ∪ newEntities cv |}).
Proof.
  intros Hfree Hlen. unfold addComponent.
  by rewrite addComponent_index, map_insert_new_fresh.
Qed.

Lemma dense_addComponent cv id (c : T) :
  dense cv → id < 2 ^ UNSIGNED_BITS → indexes cv !! id = None →
  dense (addComponent id c cv).2.
Proof.
  intros D Hid Hfree.
  rewrite addComponent_fresh by eauto using dense_room. simpl.
  split; simpl.
  - rewrite length_app, map_size_insert_None by done. simpl.
    rewrite (dense_length _ D). lia.
  - intros i k. rewrite length_app. simpl.
    rewrite lookup_insert. case_decide.
    + intros [= <-]. lia.
    + intros Hk%(dense_range _ D). lia.
  - intros i j k. rewrite !lookup_insert. repeat case_decide; subst.
    + done.
    + intros [= <-] Hk%(dense_range _ D). lia.
    + intros Hk%(dense_range _ D) [= <-]. lia.
    + apply (dense_inj _ D).
  - intros i k. rewrite lookup_insert. case_decide; subst; [done|].
    apply (dense_ids _ D).
  - rewrite dom_insert_L. pose proof (dense_keyed _ D). set_solver.
Qed.

Lemma dense_removeEntity cv id k :
  dense cv → indexes cv !! id = Some k →
  ∃ cv', removeEntity id cv = (Ret tt, cv') ∧ dense cv'.
Proof.
  intros D Hk. pose proof (dense_range _ D _ _ Hk) as Hlt.
  eexists. split; [by apply removeEntity_present|].
  assert (Hother : ∀ i v, delete id (indexes cv) !! i = Some v →
            indexes cv !! i = Some v ∧ v ≠ k ∧ v < N.of_nat (length (components cv))).
  { intros i v [Hne Hv]%lookup_delete_Some. repeat split; [done| |by eapply dense_range].
    intros ->. by destruct Hne; eapply dense_inj. }
  split; simpl.
  - rewrite length_delete by (apply lookup_lt_is_Some; lia).
    rewrite map_size_fmap, map_size_delete_Some by eauto.
    rewrite (dense_length _ D). lia.
  - intros i v. rewrite lookup_fmap.
    destruct (delete id (indexes cv) !! i) as [v0|] eqn:E; [|done].
    intros [= <-]. apply Hother in E as (_ & Hne & Hv).
    rewrite length_delete by (apply lookup_lt_is_Some; lia).
    unfold shift_down. case_decide; lia.
  - intros i j v. rewrite !lookup_fmap.
    destruct (delete id (indexes cv) !! i) as [vi|] eqn:Ei; [|done].
    destruct (delete id (indexes cv) !! j) as [vj|] eqn:Ej; [|done].
    intros [= <-] [= Heq].
    apply Hother in Ei as (Hi & Hnei & _). apply Hother in Ej as (Hj & Hnej & _).
    apply (dense_inj _ D i j vi); [done|].
    replace vi with vj; [done|]. unfold shift_down in Heq.
    destruct (decide (k < vi)), (decide (k < vj)); lia.
  - intros i v. rewrite lookup_fmap.
    destruct (delete id (indexes cv) !! i) as [v0|] eqn:E; [|done].
    intros _. apply Hother in E as (Hi & _). by eapply dense_ids.
  - rewrite dom_fmap_L, dom_delete_L. pose proof (dense_keyed _ D). set_solver.
Qed.

Lemma dense_groupEntities cv : dense cv → dense (groupEntities cv).2.
Proof.
  intros D. split; simpl; try apply D.
  pose proof (dense_keyed _ D). set_solver.
Qed.

Lemma dense_step (o : op T) cv :
  dense cv → admissible o cv = true →
  ∃ cv', step o cv = (Ret tt, cv') ∧ dense cv'.
Proof.
  intros D Hadm. destruct o as [id c|id|]; simpl in *.
  - apply andb_prop in Hadm as [Hid%bool_decide_eq_true Hfree%bool_decide_eq_true].
    exists (addComponent id c cv).2. split; [done|]. by apply dense_addComponent.
  - apply bool_decide_eq_true in Hadm as [k Hk]. by eapply dense_removeEntity.
  - exists (groupEntities cv).2. split; [done|]. by apply dense_groupEntities.
Qed.

Lemma dense_run (ops : list (op T)) :
  ∀ cv, dense cv → legal ops cv = true →
  ∃ cv', run ops cv = (Ret tt, cv') ∧ dense cv'.
Proof.
  induction ops as [|o ops IH]; intros cv D Hlegal; simpl in *.
  - by exists cv.
  - apply andb_prop in Hlegal as [Hadm Hrest].
    destruct (dense_step o cv D Hadm) as (cv1 & Hstep & D1).
    rewrite Hstep in Hrest. simpl in Hrest.
    destruct (IH cv1 D1 Hrest) as (cv' & Hrun & D').
    exists cv'. split; [|done]. unfold bind. by rewrite Hstep.
Qed.

Lemma tracked_empty : tracked (empty (T:=T)).
Proof. split; simpl; [by rewrite dom_empty_L, union_empty_r_L | set_solver]. Qed.

Lemma tracked_step (o : op T) cv :
  tracked cv → admissible o cv = true → is_removal o = false →
  tracked (step o cv).2.
Proof.
  intros [Hdom Hdisj] Hadm Hkeep. destruct o as [id c|id|]; simpl in *; [|done|].
  - apply andb_prop in Hadm as [_ Hfree%bool_decide_eq_true].
    unfold tracked. simpl. rewrite map_insert_new_fresh by done.
    apply not_elem_of_dom in Hfree. split.
    + rewrite dom_insert_L, Hdom. set_solver.
    + rewrite Hdom in Hfree. set_solver.
  - unfold tracked. simpl. split; [rewrite Hdom|]; set_solver.
Qed.

Lemma tracked_run (ops : list (op T)) :
  ∀ cv cv', tracked cv → legal ops cv = true → removal_free ops = true →
  run ops cv = (Ret tt, cv') → tracked cv'.
Proof.
  induction ops as [|o ops IH]; intros cv cv' Htr Hlegal Hfree; simpl in *.
  - by intros [= <-].
  - apply andb_prop in Hlegal as [Hadm Hrest].
    apply andb_prop in Hfree as [Hkeep%negb_true_iff Hfree].
    pose proof (tracked_step o cv Htr Hadm Hkeep) as Htr1.
    unfold bind. destruct (step o cv) as [[[]| |] cv1]; try discriminate.
    by apply IH.
Qed.

(** C2, as amended. Starting from the empty array, every sequence of
    [addComponent] for ids that are not keyed at that moment, [removeEntity]
    for ids that are keyed at that moment, and [groupEntities] runs to its
    end without an error; afterwards the vector has as many rows as the index
    map has keys, and every key of the index map is in the live or the staged
    set, so that the keys are at most as many as the members of the two
    sets. If no [removeEntity] is among the calls, the keys are exactly the
    members of the two sets, as many as these, and no id is in both sets. *)
Theorem legal_sequence_keeps_array_dense (ops : list (op T)) :
  legal ops empty = true →
  ∃ cv,
    run ops empty = (Ret tt, cv) ∧
    length (components cv) = size (indexes cv) ∧
    dom (indexes cv) ⊆ entities cv ∪ newEntities cv ∧
    (size (indexes cv) ≤ size (entities cv ∪ newEntities cv))%nat ∧
    (removal_free ops = true →
       dom (indexes cv) = entities cv ∪ newEntities cv ∧
       size (indexes cv) = size (entities cv ∪ newEntities cv) ∧
       entities cv ∩ newEntities cv = ∅).
Proof.
  intros Hlegal.
  destruct (dense_run ops empty dense_empty Hlegal) as (cv & Hrun & D).
  exists cv. split; [done|]. split; [apply D|]. split; [apply D|].
  split.
  - rewrite <- (size_dom (D:=gset N)). apply subseteq_size, D.
  - intros Hfree.
    destruct (tracked_run ops empty cv tracked_empty Hlegal Hfree Hrun) as [Hdom Hdisj].
    split; [done|]. split; [|done].
    by rewrite <- Hdom, size_dom.
Qed.
End dense_arrays.

(** ** The registry *)

Section component_manager.
Context {C : Type}.
Implicit Types (cm : ComponentManager.t C) (T : TypeInfo) (id : N).
Import ComponentManager.


Lemma method_on_array {A} T (method : M (ComponentVector.t C) A) cm :
  (call p <- getComponentVector T; through p method) cm =
    ((method (array_of T cm)).1,
     {| componentVectors :=
          <[typekey T := (method (array_of T cm)).2]> (componentVectors cm) |}).
Proof.
  unfold bind, getComponentVector, through, array_of.
  destruct (componentVectors cm !! typekey T) as [v|] eqn:E; simpl.
  - rewrite E. by destruct (method v).
  - rewrite lookup_insert_eq. destruct (method ComponentVector.empty).
    by rewrite insert_insert_eq.
Qed.

Lemma keys_NoDup cm : NoDup (keys cm).
Proof.
  unfold keys. rewrite merge_sort_Permutation. apply NoDup_elements.
Qed.

Lemma elem_of_keys cm key :
  key ∈ keys cm ↔ is_Some (componentVectors cm !! key).
Proof.
  unfold keys. rewrite merge_sort_Permutation, elem_of_elements. apply elem_of_dom.
Qed.

Lemma keys_sorted cm : Sorted N.le (keys cm).
Proof. apply (Sorted_merge_sort N.le). Qed.

(** The fan-out returns when every array it visits keys [id] at a row of
    its vector. *)
Lemma fan_out_returns id (ks : list N) :
  ∀ m : gmap N (ComponentVector.t C),
    NoDup ks →
    (∀ key, key ∈ ks → ∃ v k,
        m !! key = Some v ∧ ComponentVector.indexes v !! id = Some k ∧
        k < N.of_nat (length (ComponentVector.components v))) →
    ∃ m', for_each ks (λ key, through key (ComponentVector.removeEntity id))
            {| componentVectors := m |} = (Ret tt, {| componentVectors := m' |}).
Proof.
  induction ks as [|key ks IH]; intros m Hnd Hall; simpl.
  - by exists m.
  - apply NoDup_cons in Hnd as [Hnotin Hnd].
    destruct (Hall key) as (v & k & Hv & Hk & Hlt); [left|].
    unfold bind, through at 1. simpl. rewrite Hv.
    rewrite (removeEntity_present v id k Hk Hlt).
    apply IH; [done|]. intros key' Hin.
    destruct (Hall key') as (v' & k' & Hv' & Hk' & Hlt'); [by right|].
    exists v', k'. rewrite lookup_insert_ne; [done|]. by intros ->.
Qed.

(** The fan-out throws as soon as it meets an array that does not key
    [id]; the arrays visited before have already lost their row. *)
Lemma fan_out_throws id (ks : list N) :
  ∀ m : gmap N (ComponentVector.t C),
    (∀ key, key ∈ ks → ∃ v, m !! key = Some v ∧
        ∀ k, ComponentVector.indexes v !! id = Some k →
             k < N.of_nat (length (ComponentVector.components v))) →
    (∃ key v, key ∈ ks ∧ m !! key = Some v ∧ ComponentVector.indexes v !! id = None) →
    NoDup ks →
    (for_each ks (λ key, through key (ComponentVector.removeEntity id))
       {| componentVectors := m |}).1 = Throw out_of_range.
Proof.
  induction ks as [|key ks IH]; intros m Hall (bad & vbad & Hin & Hbad & Habsent) Hnd.
  - by apply elem_of_nil in Hin.
  - apply NoDup_cons in Hnd as [Hnotin Hnd]. simpl.
    destruct (Hall key) as (v & Hv & Hrange); [left|].
    unfold bind, through at 1. simpl. rewrite Hv.
    destruct (ComponentVector.indexes v !! id) as [k|] eqn:Hk.
    + rewrite (removeEntity_present v id k Hk (Hrange k eq_refl)).
      assert (bad ≠ key) by (intros ->; congruence).
      apply IH; [| |done].
      * intros key' Hin'. destruct (Hall key') as (v' & Hv' & Hr'); [by right|].
        exists v'. rewrite lookup_insert_ne; [done|]. by intros ->.
      * exists bad, vbad. apply elem_of_cons in Hin as [?|?]; [done|].
        by rewrite lookup_insert_ne.
    + by rewrite (removeEntity_absent v id Hk).
Qed.
End component_manager.

(** ** The world *)

Section world.
Context {C : Type}.
Implicit Types (w : ECSManager.t C) (T : TypeInfo) (id : N).
Import ECSManager.


Lemma world_array_with_array T v w : world_array T (with_array T v w) = v.
Proof.
  unfold world_array, with_array, array_of. simpl. by rewrite lookup_insert_eq.
Qed.

Lemma addComponent_on_array T id (c : C) w :
  is_component T = true →
  addComponent T id c w =
    (Ret tt, with_array T (ComponentVector.addComponent id c (world_array T w)).2 w).
Proof.
  intros HT. unfold addComponent, on_components, ComponentManager.addComponent.
  rewrite HT, method_on_array. reflexivity.
Qed.

Lemma getComponent_on_array T id w :
  getComponent T id w =
    ((ComponentVector.getComponent id (world_array T w)).1,
     with_array T (ComponentVector.getComponent id (world_array T w)).2 w).
Proof.
  unfold getComponent, on_components, ComponentManager.getComponent.
  by rewrite method_on_array.
Qed.

Lemma getComponentEntities_on_array T w :
  is_component T = true →
  getComponentEntities T w =
    (Ret (ComponentVector.entities (world_array T w)), with_array T (world_array T w) w).
Proof.
  intros HT. unfold getComponentEntities, on_components,
    ComponentManager.getComponentEntities.
  rewrite HT, method_on_array. reflexivity.
Qed.

Lemma getNewComponentEntities_on_array T w :
  getNewComponentEntities T w =
    (Ret (ComponentVector.newEntities (world_array T w)), with_array T (world_array T w) w).
Proof.
  unfold getNewComponentEntities, on_components,
    ComponentManager.getNewComponentEntities.
  rewrite method_on_array. reflexivity.
Qed.

Lemma generateEntityID_reuse w ids id :
  reusableIDs w = ids ++ [id] →
  generateEntityID w = (Ret id, set_reusableIDs ids w).
Proof.
  intros H. unfold generateEntityID. by rewrite H, last_snoc, removelast_last.
Qed.

Lemma generateEntityID_next w :
  reusableIDs w = [] →
  generateEntityID w = (Ret (nextID w), set_nextID (wrap (nextID w + 1)) w).
Proof. intros H. unfold generateEntityID. by rewrite H. Qed.

Lemma destroyEntity_returned id w w' :
  destroyEntity id w = (Ret tt, w') →
  ∃ cm',
    is_Some (entities w !! id) ∧
    ComponentManager.removeEntity id (components w) = (Ret tt, cm') ∧
    w' = set_reusableIDs (reusableIDs w ++ [id])
           (set_entities (delete id (entities w)) (set_components cm' w)).
Proof.
  unfold destroyEntity, bind, entities_at, on_components.
  destruct (entities w !! id) as [e|]; [|discriminate].
  destruct (ComponentManager.removeEntity id (components w)) as [[[]| |] cm'];
    simpl; intros [= <-].
  exists cm'. by eauto.
Qed.

Lemma destroyEntity_returns id w :
  is_Some (entities w !! id) →
  (∀ key v, ComponentManager.componentVectors (components w) !! key = Some v →
     ∃ k, ComponentVector.indexes v !! id = Some k ∧
          k < N.of_nat (length (ComponentVector.components v))) →
  ∃ w', destroyEntity id w = (Ret tt, w').
Proof.
  intros [e He] Hall.
  destruct (fan_out_returns id (ComponentManager.keys (components w))
              (ComponentManager.componentVectors (components w)))
    as [m' Hm'].
  { apply keys_NoDup. }
  { intros key [v Hv]%elem_of_keys. destruct (Hall key v Hv) as (k & ? & ?). by exists v, k. }
  unfold destroyEntity, bind, entities_at, on_components, ComponentManager.removeEntity.
  rewrite He. destruct (components w) as [m]. simpl in *. rewrite Hm'. by eexists.
Qed.

(** C5. If the reuse pool is not empty, [generateEntityID] returns its last
    element, the id released most recently, and takes it off the pool;
    if the pool is empty it returns [nextID] and stores [nextID + 1], reduced
    to the range of [unsigned], as the new [nextID]. A [destroyEntity id]
    that returns has put [id] at the end of the pool, so that the next
    [generateEntityID] returns [id] and restores pool and counter; and
    [destroyEntity id] does return when [id] has a facade and every
    registered array keys [id] at a row of its vector. *)
Theorem allocator_reuses_last_released w :
  (∀ ids id, reusableIDs w = ids ++ [id] →
     generateEntityID w = (Ret id, set_reusableIDs ids w)) ∧
  (reusableIDs w = [] →
     generateEntityID w = (Ret (nextID w), set_nextID (wrap (nextID w + 1)) w) ∧
     (nextID w + 1 < 2 ^ UNSIGNED_BITS → wrap (nextID w + 1) = nextID w + 1)) ∧
  (∀ id w', destroyEntity id w = (Ret tt, w') →
     reusableIDs w' = reusableIDs w ++ [id] ∧
     nextID w' = nextID w ∧
     ∃ w'', generateEntityID w' = (Ret id, w'') ∧
            reusableIDs w'' = reusableIDs w ∧ nextID w'' = nextID w) ∧
  (∀ id, is_Some (entities w !! id) →
     (∀ key v, ComponentManager.componentVectors (components w) !! key = Some v →
        ∃ k, ComponentVector.indexes v !! id = Some k ∧
             k < N.of_nat (length (ComponentVector.components v))) →
     ∃ w', destroyEntity id w = (Ret tt, w')).
Proof.
  split; [intros ids id; apply generateEntityID_reuse|].
  split; [intros H; split; [by apply generateEntityID_next|apply wrap_small]|].
  split; [|intros id; apply destroyEntity_returns].
  intros id w' (cm' & _ & _ & ->)%destroyEntity_returned. simpl.
  split; [done|]. split; [done|].
  eexists. split; [by apply generateEntityID_reuse|]. done.
Qed.

(** C7, as amended. For a component type [T] whose array does not key the
    world's own id yet and holds fewer than [2^32] rows, the one-argument
    [addComponent<T>(v)] followed by the zero-argument [getComponent<T>()]
    returns, and yields [v]; the world's own id is unchanged. *)
Theorem self_component_is_read_back w T (v : C) :
  is_component T = true →
  ComponentVector.indexes (world_array T w) !! managerID w = None →
  N.of_nat (length (ComponentVector.components (world_array T w))) < 2 ^ UNSIGNED_BITS →
  ∃ w',
    (exec addComponent_self T v; getComponent_self T) w = (Ret v, w') ∧
    managerID w' = managerID w.
Proof.
  intros HT Hfree Hlen.
  unfold bind, addComponent_self, getComponent_self.
  rewrite addComponent_on_array by done.
  rewrite getComponent_on_array, world_array_with_array.
  rewrite (addComponent_fresh _ _ v Hfree Hlen). simpl.
  erewrite getComponent_present; simpl.
  - eexists. split; reflexivity.
  - apply lookup_insert_eq.
  - by rewrite Nat2N.id, lookup_app_r, Nat.sub_diag.
Qed.

(** Every method of the array except [addComponent] leaves an unpopulated
    array unpopulated. *)
Lemma unpopulated_preserved (cv cv' : ComponentVector.t C) :
  unpopulated cv →
  (∃ id r, ComponentVector.removeEntity id cv = (r, cv')) ∨
  (∃ id r, ComponentVector.getComponent id cv = (r, cv')) ∨
  (∃ r, ComponentVector.groupEntities cv = (r, cv')) →
  unpopulated cv'.
Proof.
  intros (Hrows & Hlive & Hstaged) [(id & r & H)|[(id & r & H)|(r & H)]].
  - unfold ComponentVector.removeEntity in H.
    destruct (ComponentVector.indexes cv !! id) as [k|].
    + destruct (decide _) as [Hlt|_].
      * rewrite Hrows in Hlt. simpl in Hlt. lia.
      * by injection H as _ <-.
    + by injection H as _ <-.
  - unfold ComponentVector.getComponent in H.
    destruct (map_subscript id (ComponentVector.indexes cv)) as [index indexes'].
    destruct (ComponentVector.components cv !! N.to_nat index); by injection H as _ <-.
  - injection H as _ <-. repeat split; simpl; [done|].
    rewrite Hlive, Hstaged. set_solver.
Qed.

(** C10. For a component type [T] to whose array no component was ever
    added, whether the array is registered or not, both
    [getComponentEntities<T>()] and [getNewComponentEntities<T>()] return
    the empty set; the only effect on the world is that [T]'s key holds its
    array afterwards, which is the empty array when the type was not
    registered before; a further query gives the same. *)
Theorem query_of_unused_type_is_empty w T :
  is_component T = true →
  unpopulated (world_array T w) →
  ∃ w',
    getComponentEntities T w = (Ret ∅, w') ∧
    getNewComponentEntities T w = (Ret ∅, w') ∧
    w' = with_array T (world_array T w) w ∧
    (ComponentManager.componentVectors (components w) !! typekey T = None →
     ComponentManager.componentVectors (components w') !! typekey T =
       Some ComponentVector.empty) ∧
    getComponentEntities T w' = (Ret ∅, w') ∧
    getNewComponentEntities T w' = (Ret ∅, w').
Proof.
  intros HT (_ & Hlive & Hstaged). eexists.
  pose proof (world_array_with_array T (world_array T w) w) as Harr.
  assert (Hagain : with_array T (world_array T w) (with_array T (world_array T w) w)
                   = with_array T (world_array T w) w).
  { unfold with_array, set_components. simpl. by rewrite insert_insert_eq. }
  rewrite !getComponentEntities_on_array, !getNewComponentEntities_on_array by done.
  rewrite Harr, Hlive, Hstaged, Hagain.
  repeat split.
  intros Hnone. simpl. rewrite lookup_insert_eq.
  unfold world_array, array_of. by rewrite Hnone.
Qed.
End world.

(** ** The scenarios *)

Section scenarios.
Import ComponentVector Trace Scenario.

(** C1: the code at an id that the array does not key. [removeEntity 2] on
    the array holding one row of entity 1 throws [out_of_range] and leaves
    the array as it was; the fan-out over a registry holding that array
    throws as well; and in a fresh world with entities 1 and 2 and a component
    for entity 1 only, [destroyEntity 2] throws, entity 2 keeps its facade
    and its id is not put on the reuse pool. *)
Theorem removeEntity_of_absent_id_throws :
  indexes one_row !! 2 = None ∧
  removeEntity 2 one_row = (Throw out_of_range, one_row) ∧
  ComponentManager.removeEntity 2 {| ComponentManager.componentVectors := {[1 := one_row]} |} =
    (Throw out_of_range, {| ComponentManager.componentVectors := {[1 := one_row]} |}) ∧
  (entity_without_component_destroyed ECSManager.fresh).1 = Throw out_of_range ∧
  ECSManager.entities (entity_without_component_destroyed ECSManager.fresh).2 !! 2 =
    Some {| entityID := 2 |} ∧
  ECSManager.reusableIDs (entity_without_component_destroyed ECSManager.fresh).2 = [].
Proof. repeat split; vm_compute; reflexivity. Qed.

(** C3: the code at an id that the array does not key. [getComponent 2] on
    the array holding one row of entity 1 returns that row, the component of
    entity 1, and leaves the index map with the new key 2 at slot 0; on the
    empty array it throws [out_of_range] and still leaves the new key. *)
Theorem getComponent_of_absent_id_inserts_key :
  indexes one_row !! 2 = None ∧
  getComponent 1 one_row = (Ret 7, one_row) ∧
  (getComponent 2 one_row).1 = Ret 7 ∧
  indexes (getComponent 2 one_row).2 = {[1 := 0; 2 := 0]} ∧
  (getComponent 2 (empty (T:=N))).1 = Throw out_of_range ∧
  indexes (getComponent 2 (empty (T:=N))).2 = {[2 := 0]}.
Proof. repeat split; vm_compute; reflexivity. Qed.

(** C2, the claim as stated fails. After [addComponent 0; removeEntity 0] the
    vector and the index map are empty while 0 is still in the staged set;
    after [addComponent 0; groupEntities; removeEntity 0; addComponent 0] the
    id 0 is in the live and in the staged set; after two [addComponent 0]
    the vector has two rows and the index map one key. *)
Lemma dense_arrays_counterexample :
  let added_removed := run [Add 0 7; Remove 0] (empty (T:=N)) in
  let readded := run [Add 0 7; Group; Remove 0; Add 0 8] (empty (T:=N)) in
  let added_twice := run [Add 0 7; Add 0 8] (empty (T:=N)) in
  (legal [Add 0 7; Remove 0] (empty (T:=N)) = true ∧
   added_removed.1 = Ret tt ∧
   length (components added_removed.2) = 0%nat ∧
   size (indexes added_removed.2) = 0%nat ∧
   entities added_removed.2 = ∅ ∧
   newEntities added_removed.2 = {[0]} ∧
   size (entities added_removed.2 ∪ newEntities added_removed.2) = 1%nat) ∧
  (legal [Add 0 7; Group; Remove 0; Add 0 8] (empty (T:=N)) = true ∧
   readded.1 = Ret tt ∧
   entities readded.2 = {[0]} ∧
   newEntities readded.2 = {[0]} ∧
   entities readded.2 ∩ newEntities readded.2 = {[0]}) ∧
  (added_twice.1 = Ret tt ∧
   length (components added_twice.2) = 2%nat ∧
   size (indexes added_twice.2) = 1%nat).
Proof. repeat split; vm_compute; reflexivity. Qed.

(** C2, as amended, on two sequences: one with removals, which ends with as
    many rows as keys, and one without, which ends with disjoint sets that
    hold exactly the keys. *)
Lemma legal_sequence_witness :
  legal [Add 1 0; Add 2 1; Group; Remove 1; Add 3 2; Remove 3; Add 1 5] (empty (T:=N)) = true ∧
  (∃ cv,
     run [Add 1 0; Add 2 1; Group; Remove 1; Add 3 2; Remove 3; Add 1 5] empty = (Ret tt, cv) ∧
     length (components cv) = size (indexes cv) ∧
     dom (indexes cv) ⊆ entities cv ∪ newEntities cv) ∧
  legal [Add 1 0; Add 2 1; Group; Add 3 2] (empty (T:=N)) = true ∧
  removal_free [Add 1 0; Add 2 1; Group; Add 3 2] = true ∧
  (∃ cv,
     run [Add 1 0; Add 2 1; Group; Add 3 2] empty = (Ret tt, cv) ∧
     size (indexes cv) = size (entities cv ∪ newEntities cv) ∧
     entities cv ∩ newEntities cv = ∅).
Proof.
  split; [reflexivity|]. split.
  { destruct (legal_sequence_keeps_array_dense (T:=N)
                [Add 1 0; Add 2 1; Group; Remove 1; Add 3 2; Remove 3; Add 1 5] eq_refl)
      as (cv & Hrun & Hlen & Hsub & _).
    exists cv. split; [exact Hrun|]. split; [exact Hlen|exact Hsub]. }
  split; [reflexivity|]. split; [reflexivity|].
  destruct (legal_sequence_keeps_array_dense (T:=N)
              [Add 1 0; Add 2 1; Group; Add 3 2] eq_refl)
    as (cv & Hrun & _ & _ & _ & Hexact).
  destruct (Hexact eq_refl) as (_ & Hsize & Hdisj).
  exists cv. split; [exact Hrun|]. split; [exact Hsize|exact Hdisj].
Defined.

(** C8 on scenario A, on one array: rows 0, 1, 2 for the entities 1, 2, 3; after
    [removeEntity 2] the rows are 0, 2, entity 1 is at slot 0 and entity 3 at
    slot 1, and the component of entity 3 is 2. *)
Lemma removeEntity_middle_witness :
  let cv := (run [Add 1 0; Add 2 1; Add 3 2] (empty (T:=N))).2 in
  components cv = [0; 1; 2] ∧
  indexes cv = {[1 := 0; 2 := 1; 3 := 2]} ∧
  ∃ cv',
    removeEntity 2 cv = (Ret tt, cv') ∧
    components cv' = [0; 2] ∧
    indexes cv' !! 1 = Some 0 ∧
    indexes cv' !! 2 = None ∧
    indexes cv' !! 3 = Some 1 ∧
    getComponent 3 cv' = (Ret 2, cv').
Proof.
  split; [reflexivity|]. split; [reflexivity|].
  destruct (removeEntity_erases_and_shifts
              (run [Add 1 0; Add 2 1; Add 3 2] (empty (T:=N))).2 2 1 eq_refl eq_refl)
    as (cv' & Hremove & Hrows & Hgone & Hshift & _).
  exists cv'. split; [exact Hremove|]. split; [exact Hrows|].
  pose proof (Hshift 1 0 ltac:(discriminate) eq_refl) as H1.
  pose proof (Hshift 3 2 ltac:(discriminate) eq_refl) as H3.
  split; [exact H1|]. split; [exact Hgone|]. split; [exact H3|].
  apply (getComponent_present cv' 3 1 2 H3). rewrite Hrows. reflexivity.
Defined.

(** C9 on the array with the row 7 of entity 1: a second component 9 for
    entity 1 becomes row 1, and entity 1 still reads 7. *)
Lemma addComponent_again_witness :
  indexes one_row !! 1 = Some 0 ∧
  components one_row !! 0%nat = Some 7 ∧
  ∃ cv',
    addComponent 1 9 one_row = (Ret tt, cv') ∧
    indexes cv' = indexes one_row ∧
    components cv' = [7; 9] ∧
    getComponent 1 cv' = (Ret 7, cv').
Proof.
  split; [reflexivity|]. split; [reflexivity|].
  destruct (addComponent_again_keeps_first one_row 1 0 7 9 eq_refl eq_refl)
    as (cv' & Hadd & Hidx & Hrows & _ & _ & Hget & _).
  { intros other v Hv. change (indexes one_row) with ({[1 := 0]} : gmap N N) in Hv.
    apply lookup_singleton_Some in Hv as [_ <-]. reflexivity. }
  exists cv'. split; [exact Hadd|]. split; [exact Hidx|]. split; [exact Hrows|]. exact Hget.
Defined.

(** Scenario A in a world: the entities get the ids 1, 2, 3. *)
Example middle_entity_destroyed_in_world :
  (middle_entity_destroyed ECSManager.fresh).1 = Ret ([1; 2; 3], 2) ∧
  components (world_array Position (middle_entity_destroyed ECSManager.fresh).2) = [0; 2] ∧
  indexes (world_array Position (middle_entity_destroyed ECSManager.fresh).2) =
    {[1 := 0; 3 := 1]}.
Proof. repeat split; vm_compute; reflexivity. Qed.

(** C6, the claim as stated fails. In a fresh world five [createEntity]
    calls return the ids 1 to 5; with the third and the fifth facade
    destroyed the next three ids are 5, 3, 6, and with the entities of ids 2
    and 4 destroyed they are 4, 2, 6: in neither reading 4, 2, 5. *)
Lemma reuse_scenario_counterexample :
  ECSManager.managerID (C:=N) ECSManager.fresh = 0 ∧
  (five_created_third_and_fifth_destroyed ECSManager.fresh).1 =
    Ret ([1; 2; 3; 4; 5], [5; 3; 6]) ∧
  (ids_2_and_4_destroyed 5 ECSManager.fresh).1 = Ret ([1; 2; 3; 4; 5], [4; 2; 6]).
Proof. repeat split; vm_compute; reflexivity. Qed.

(** C6, as amended. The constructor gives the world itself the id 0. Five
    [createEntity] calls on the fresh world return the ids 1 to 5; after
    [destroyEntity] of the third and then of the fifth of these entities
    (ids 3 and 5) the next two [createEntity] calls return 5 and then 3, and
    one more returns 6, leaving the pool empty. When the world's own entity
    is counted as the first of the five (four [createEntity] calls, ids 0 to
    4 in use), destroying the ids 2 and 4 makes the next calls return 4,
    then 2, then 5. *)
Theorem reuse_after_destroy_is_last_in_first_out :
  ECSManager.construct (C:=N) ECSManager.blank = (Ret tt, ECSManager.fresh) ∧
  ECSManager.managerID (C:=N) ECSManager.fresh = 0 ∧
  ECSManager.nextID (C:=N) ECSManager.fresh = 1 ∧
  (five_created_third_and_fifth_destroyed ECSManager.fresh).1 =
    Ret ([1; 2; 3; 4; 5], [5; 3; 6]) ∧
  ECSManager.reusableIDs (five_created_third_and_fifth_destroyed ECSManager.fresh).2 = [] ∧
  ECSManager.nextID (five_created_third_and_fifth_destroyed ECSManager.fresh).2 = 7 ∧
  (ids_2_and_4_destroyed 4 ECSManager.fresh).1 = Ret ([1; 2; 3; 4], [4; 2; 5]).
Proof. repeat split; vm_compute; reflexivity. Qed.

(** C7, the claim as stated fails. In the world that already holds the
    component 1 of type [Position] for its own id, [addComponent<T>(2)]
    followed by [getComponent<T>()] returns 1. *)
Lemma self_component_counterexample :
  let w1 := (ECSManager.addComponent_self Position 1 ECSManager.fresh).2 in
  indexes (world_array Position w1) !! ECSManager.managerID w1 = Some 0 ∧
  ((exec ECSManager.addComponent_self Position 2;
    ECSManager.getComponent_self Position) w1).1 = Ret 1 ∧
  components
    (world_array Position
       ((exec ECSManager.addComponent_self Position 2;
         ECSManager.getComponent_self Position) w1).2) = [1; 2].
Proof. repeat split; vm_compute; reflexivity. Qed.

(** C7, as amended, on the fresh world, whose own id has no [Position]. *)
Lemma self_component_witness :
  is_component Position = true ∧
  indexes (world_array Position (ECSManager.fresh (C:=N)))
    !! ECSManager.managerID (ECSManager.fresh (C:=N)) = None ∧
  ∃ w',
    (exec ECSManager.addComponent_self Position 5;
     ECSManager.getComponent_self Position) ECSManager.fresh = (Ret 5, w') ∧
    ECSManager.managerID w' = ECSManager.managerID (ECSManager.fresh (C:=N)).
Proof.
  split; [reflexivity|]. split; [reflexivity|].
  apply (self_component_is_read_back (C:=N)); reflexivity.
Defined.

(** C10 on the fresh world, which has no array registered. *)
Lemma query_of_unused_type_witness :
  is_component Velocity = true ∧
  unpopulated (world_array Velocity (ECSManager.fresh (C:=N))) ∧
  ComponentManager.componentVectors (ECSManager.components (ECSManager.fresh (C:=N)))
    !! typekey Velocity = None ∧
  ∃ w',
    ECSManager.getComponentEntities Velocity ECSManager.fresh = (Ret ∅, w') ∧
    ECSManager.getNewComponentEntities Velocity ECSManager.fresh = (Ret ∅, w') ∧
    ComponentManager.componentVectors (ECSManager.components w') !! typekey Velocity =
      Some (empty (T:=N)).
Proof.
  assert (Hun : unpopulated (world_array Velocity (ECSManager.fresh (C:=N))))
    by (repeat split; reflexivity).
  split; [reflexivity|]. split; [exact Hun|]. split; [reflexivity|].
  destruct (query_of_unused_type_is_empty (ECSManager.fresh (C:=N)) Velocity eq_refl Hun)
    as (w' & Hlive & Hstaged & _ & Hfresh & _).
  exists w'. split; [exact Hlive|]. split; [exact Hstaged|]. exact (Hfresh eq_refl).
Defined.

(** C5 on the fresh world: the pool is empty and the counter is 1; once the
    entity 0 is destroyed the next id is 0 again. *)
Lemma allocator_witness :
  ECSManager.reusableIDs (ECSManager.fresh (C:=N)) = [] ∧
  ECSManager.generateEntityID (ECSManager.fresh (C:=N)) =
    (Ret 1, ECSManager.set_nextID (wrap 2) ECSManager.fresh) ∧
  ∃ w',
    ECSManager.destroyEntity 0 (ECSManager.fresh (C:=N)) = (Ret tt, w') ∧
    ECSManager.reusableIDs w' = [0] ∧
    ∃ w'', ECSManager.generateEntityID w' = (Ret 0, w'') ∧ ECSManager.reusableIDs w'' = [].
Proof.
  destruct (allocator_reuses_last_released (ECSManager.fresh (C:=N)))
    as (_ & Hnext & Hdestroy & Hreturns).
  split; [reflexivity|]. split; [exact (proj1 (Hnext eq_refl))|].
  destruct (Hreturns 0) as [w' Hw'].
  { exists {| entityID := 0 |}. reflexivity. }
  { intros key v Hv. exfalso.
    change (ComponentManager.componentVectors (ECSManager.components (ECSManager.fresh (C:=N))))
      with (∅ : gmap N (ComponentVector.t N)) in Hv.
    rewrite lookup_empty in Hv. discriminate Hv. }
  exists w'. split; [exact Hw'|].
  destruct (Hdestroy 0 w' Hw') as (Hpool & _ & w'' & Hgen & Hpool' & _).
  split; [exact Hpool|]. exists w''. split; [exact Hgen|exact Hpool'].
Defined.
End scenarios.

(** * Further properties *)

(** ** The typed array as a finite map *)

Section array_as_map.
Context {T : Type}.
Implicit Types (cv : ComponentVector.t T) (id k : N).
Import ComponentVector Trace.

(** X1. On an array that does not key [id] and has fewer than [2^32] rows,
    [addComponent id c] returns, [getComponent id] then yields [c] without
    changing the array, and every other id that was keyed at a row still
    reads the component of that row. *)
Theorem addComponent_then_getComponent cv id (c : T) :
  indexes cv !! id = None →
  N.of_nat (length (components cv)) < 2 ^ UNSIGNED_BITS →
  ∃ cv',
    addComponent id c cv = (Ret tt, cv') ∧
    getComponent id cv' = (Ret c, cv') ∧
    (∀ other k c', indexes cv !! other = Some k →
       components cv !! N.to_nat k = Some c' →
       getComponent other cv' = (Ret c', cv')).
Proof.
  intros Hfree Hlen. eexists. split; [by apply addComponent_fresh|]. split.
  - eapply getComponent_present; simpl; [apply lookup_insert_eq|].
    by rewrite Nat2N.id, lookup_app_r, Nat.sub_diag.
  - intros other k c' Hk Hc'. eapply getComponent_present; simpl.
    + rewrite lookup_insert_ne; [done|]. by intros ->; rewrite Hfree in Hk.
    + rewrite lookup_app_l; [done|]. by eapply lookup_lt_Some.
Qed.

(** After the removal of the row [k], the row of a slot [v] other than [k]
    is found at the shifted slot. *)
Lemma lookup_shifted_row (l : list T) k v :
  v ≠ k → delete (N.to_nat k) l !! N.to_nat (shift_down k v) = l !! N.to_nat v.
Proof.
  intros Hne. unfold shift_down. destruct (decide (k < v)).
  - rewrite list_lookup_delete_ge by lia. f_equal. lia.
  - rewrite list_lookup_delete_lt by lia. done.
Qed.

(** X2. When [id] is keyed at row [k] and another id at a different row [v],
    [removeEntity id] returns and the other id still reads the component it
    read before. *)
Theorem removeEntity_keeps_other_components cv id k other v (c : T) :
  indexes cv !! id = Some k →
  k < N.of_nat (length (components cv)) →
  indexes cv !! other = Some v →
  v ≠ k →
  components cv !! N.to_nat v = Some c →
  ∃ cv',
    removeEntity id cv = (Ret tt, cv') ∧
    getComponent other cv = (Ret c, cv) ∧
    getComponent other cv' = (Ret c, cv').
Proof.
  intros Hk Hlt Hv Hne Hc. eexists. split; [by apply removeEntity_present|].
  split; [by eapply getComponent_present|].
  eapply getComponent_present; simpl.
  - rewrite lookup_fmap, lookup_delete_ne, Hv; [done|]. intros ->. congruence.
  - by rewrite lookup_shifted_row.
Qed.

Lemma component_of_step (o : op T) cv (m : gmap N T) :
  dense cv →
  (∀ id, component_of cv id = m !! id) →
  admissible o cv = true →
  ∃ cv',
    step o cv = (Ret tt, cv') ∧ dense cv' ∧
    ∀ id, component_of cv' id = contents [o] m !! id.
Proof.
  intros D Hm Hadm.
  destruct (dense_step o cv D Hadm) as (cv' & Hstep & D').
  exists cv'. split; [done|]. split; [done|].
  destruct o as [id c|id|]; simpl in *.
  - apply andb_prop in Hadm as [Hid%bool_decide_eq_true Hfree%bool_decide_eq_true].
    rewrite addComponent_fresh in Hstep by eauto using dense_room.
    injection Hstep as <-. intros j. unfold component_of. simpl.
    destruct (decide (id = j)) as [<-|Hne].
    + rewrite !lookup_insert_eq. simpl.
      by rewrite Nat2N.id, lookup_app_r, Nat.sub_diag.
    + rewrite !lookup_insert_ne by done. rewrite <- Hm. unfold component_of.
      destruct (indexes cv !! j) as [k|] eqn:Hk; simpl; [|done].
      apply (dense_range _ D) in Hk. rewrite lookup_app_l; [done|lia].
  - apply bool_decide_eq_true in Hadm as [k Hk].
    rewrite (removeEntity_present cv id k Hk (dense_range _ D _ _ Hk)) in Hstep.
    injection Hstep as <-. intros j. unfold component_of. simpl.
    rewrite lookup_fmap.
    destruct (decide (id = j)) as [<-|Hne].
    + by rewrite !lookup_delete_eq.
    + rewrite !lookup_delete_ne by done. rewrite <- Hm. unfold component_of.
      destruct (indexes cv !! j) as [v|] eqn:Hv; simpl; [|done].
      apply lookup_shifted_row. intros ->. by apply Hne, (dense_inj _ D id j k).
  - injection Hstep as <-. intros j. by rewrite <- Hm.
Qed.

Lemma component_of_run (ops : list (op T)) :
  ∀ cv (m : gmap N T),
    dense cv →
    (∀ id, component_of cv id = m !! id) →
    legal ops cv = true →
    ∃ cv',
      run ops cv = (Ret tt, cv') ∧ dense cv' ∧
      ∀ id, component_of cv' id = contents ops m !! id.
Proof.
  induction ops as [|o ops IH]; intros cv m D Hm Hlegal.
  - by exists cv.
  - simpl in Hlegal. apply andb_prop in Hlegal as [Hadm Hrest].
    destruct (component_of_step o cv m D Hm Hadm) as (cv1 & Hstep & D1 & Hm1).
    rewrite Hstep in Hrest. simpl in Hrest.
    destruct (IH cv1 (contents [o] m) D1 Hm1 Hrest) as (cv' & Hrun & D' & Hm').
    exists cv'. split; [|split; [done|]].
    + simpl. unfold bind. by rewrite Hstep.
    + intros id. rewrite Hm'. by destruct o.
Qed.

(** X3. Used within the callers' obligations, the array is a finite map
    from ids to components. After any sequence of [addComponent] for free
    ids, [removeEntity] for keyed ids and [groupEntities] from the empty
    array, an id that the sequence leaves with the component [c] (added and
    not removed since) reads [c] with [getComponent], which leaves the array
    as it is; any other id is not keyed. *)
Theorem legal_sequence_reads_last_added (ops : list (op T)) :
  legal ops empty = true →
  ∃ cv,
    run ops empty = (Ret tt, cv) ∧
    ∀ id,
      match contents ops ∅ !! id with
      | Some c => getComponent id cv = (Ret c, cv)
      | None => indexes cv !! id = None
      end.
Proof.
  intros Hlegal.
  destruct (component_of_run ops empty ∅ dense_empty) as (cv & Hrun & D & Hm);
    [done|done|].
  exists cv. split; [done|]. intros id. specialize (Hm id).
  unfold component_of in Hm.
  destruct (contents ops ∅ !! id) as [c|] eqn:Hc.
  - destruct (indexes cv !! id) as [k|] eqn:Hk; simpl in Hm; [|done].
    by eapply getComponent_present.
  - destruct (indexes cv !! id) as [k|] eqn:Hk; simpl in Hm; [|done].
    apply (dense_range _ D) in Hk.
    apply lookup_ge_None in Hm. lia.
Qed.
End array_as_map.

(** ** The fan-out of a removal *)

Section fan_out.
Context {C : Type}.
Implicit Types (cm : ComponentManager.t C) (id : N).
Import ComponentManager.

(** A fan-out that returns has called [removeEntity] once on the array of
    each key it was given, and has left the other arrays alone. *)
Lemma fan_out_returned id (ks : list N) :
  ∀ (m : gmap N (ComponentVector.t C)) cm',
    NoDup ks →
    for_each ks (λ key, through key (ComponentVector.removeEntity id))
      {| componentVectors := m |} = (Ret tt, cm') →
    (∀ key, key ∈ ks → ∃ v v',
        m !! key = Some v ∧
        ComponentVector.removeEntity id v = (Ret tt, v') ∧
        componentVectors cm' !! key = Some v') ∧
    (∀ key, key ∉ ks → componentVectors cm' !! key = m !! key).
Proof.
  induction ks as [|key ks IH]; intros m cm' Hnd Hrun; simpl in Hrun.
  - injection Hrun as <-. split; [|done]. intros key Hin. by apply elem_of_nil in Hin.
  - apply NoDup_cons in Hnd as [Hnotin Hnd].
    unfold bind, through at 1 in Hrun. simpl in Hrun.
    destruct (m !! key) as [v|] eqn:Hv; [|discriminate].
    destruct (ComponentVector.removeEntity id v) as [[[]| |] v1] eqn:Hrm; try discriminate.
    destruct (IH _ _ Hnd Hrun) as [Hin Hout]. split.
    + intros key' [->|Hin']%elem_of_cons.
      * exists v, v1. split; [done|]. split; [done|].
        by rewrite (Hout key Hnotin), lookup_insert_eq.
      * destruct (Hin key' Hin') as (v' & v'' & Hv' & Hrm' & Hcm').
        exists v', v''. split; [|done].
        rewrite lookup_insert_ne in Hv'; [done|]. by intros ->.
    + intros key' Hnotin'. apply not_elem_of_cons in Hnotin' as [Hne Hnotin'].
      by rewrite (Hout key' Hnotin'), lookup_insert_ne.
Qed.

(** Whatever the outcome, a fan-out registers and unregisters nothing, and
    each array is left either as it was or as one call of [removeEntity]
    left it. *)
Lemma fan_out_effect id (ks : list N) :
  ∀ (m : gmap N (ComponentVector.t C)) r cm',
    for_each ks (λ key, through key (ComponentVector.removeEntity id))
      {| componentVectors := m |} = (r, cm') →
    ∀ key,
      match m !! key with
      | None => componentVectors cm' !! key = None
      | Some v =>
          ∃ v', componentVectors cm' !! key = Some v' ∧
                ComponentVector.entities v' = ComponentVector.entities v ∧
                ComponentVector.newEntities v' = ComponentVector.newEntities v
      end.
Proof.
  induction ks as [|key ks IH]; intros m r cm' Hrun key'; simpl in Hrun.
  - injection Hrun as <- <-. simpl. destruct (m !! key'); eauto.
  - unfold bind, through at 1 in Hrun. simpl in Hrun.
    destruct (m !! key) as [v|] eqn:Hv.
    + destruct (ComponentVector.removeEntity id v) as [r1 v1] eqn:Hrm.
      apply removeEntity_keeps_sets in Hrm as [Hlive Hstaged].
      assert (Hstep : match m !! key' with
                | None => (<[key:=v1]> m) !! key' = None
                | Some v0 => ∃ v', (<[key:=v1]> m) !! key' = Some v' ∧
                    ComponentVector.entities v' = ComponentVector.entities v0 ∧
                    ComponentVector.newEntities v' = ComponentVector.newEntities v0
                end).
      { destruct (decide (key = key')) as [<-|Hne].
        - rewrite Hv, lookup_insert_eq. eauto.
        - rewrite lookup_insert_ne by done. destruct (m !! key'); eauto. }
      destruct r1 as [[]| |].
      * specialize (IH _ _ _ Hrun key').
        destruct (m !! key') as [v0|].
        -- destruct Hstep as (v' & Hv' & Hl & Hs). rewrite Hv' in IH.
           destruct IH as (v'' & ? & ? & ?). exists v''. split; [done|]. split; congruence.
        -- by rewrite Hstep in IH.
      * by injection Hrun as <- <-.
      * by injection Hrun as <- <-.
    + injection Hrun as <- <-. simpl. destruct (m !! key'); eauto.
Qed.

(** What a fan-out that returns has done to the registry. *)
Lemma fan_out_removes_rows id cm cm' :
  removeEntity id cm = (Ret tt, cm') →
  dom (componentVectors cm') = dom (componentVectors cm) ∧
  ∀ key v, componentVectors cm !! key = Some v →
    ∃ v',
      componentVectors cm' !! key = Some v' ∧
      ComponentVector.removeEntity id v = (Ret tt, v') ∧
      ComponentVector.indexes v' !! id = None ∧
      S (length (ComponentVector.components v')) = length (ComponentVector.components v).
Proof.
  unfold removeEntity. destruct cm as [m]. simpl. intros Hrun.
  destruct (fan_out_returned id _ m cm' (keys_NoDup {| componentVectors := m |}) Hrun)
    as [Hin Hout].
  assert (Hkey : ∀ key, key ∈ keys {| componentVectors := m |} ↔ is_Some (m !! key))
    by (intros key; apply elem_of_keys).
  split.
  - apply set_eq. intros key. rewrite !elem_of_dom.
    destruct (decide (key ∈ keys {| componentVectors := m |})) as [Hk|Hk].
    + destruct (Hin key Hk) as (v & v' & Hv & _ & Hv'). rewrite Hv, Hv'. by split; eauto.
    + by rewrite (Hout key Hk).
  - intros key v Hv.
    destruct (Hin key) as (v0 & v' & Hv0 & Hrm & Hv'); [apply Hkey; eauto|].
    assert (v0 = v) as -> by congruence.
    exists v'. split; [done|]. split; [done|].
    unfold ComponentVector.removeEntity in Hrm.
    destruct (ComponentVector.indexes v !! id) as [k|] eqn:Hk; [|discriminate].
    destruct (decide _) as [Hlt|]; [|discriminate].
    injection Hrm as <-. simpl. split.
    + by rewrite lookup_fmap, lookup_delete_eq.
    + rewrite length_delete by (apply lookup_lt_is_Some; lia).
      assert (0 < length (ComponentVector.components v))%nat by lia. lia.
Qed.

(** X4. A registry-wide [removeEntity id] that returns has removed the row
    of [id] from every registered array: the registered keys are the same,
    each array is what its own [removeEntity id] makes of it, no array keys
    [id] any more, and each vector is one row shorter. *)
Theorem removeEntity_fan_out_removes_every_row id cm cm' :
  removeEntity id cm = (Ret tt, cm') →
  dom (componentVectors cm') = dom (componentVectors cm) ∧
  ∀ key v, componentVectors cm !! key = Some v →
    ∃ v',
      componentVectors cm' !! key = Some v' ∧
      ComponentVector.removeEntity id v = (Ret tt, v') ∧
      ComponentVector.indexes v' !! id = None ∧
      S (length (ComponentVector.components v')) = length (ComponentVector.components v).
Proof. intros Hrun. by apply fan_out_removes_rows. Qed.
End fan_out.

(** ** Destruction of an entity *)

Section destruction.
Context {C : Type}.
Implicit Types (w : ECSManager.t C) (T : TypeInfo) (id : N).
Import ECSManager.

Lemma same_lifecycle_refl w : same_lifecycle w w.
Proof. by repeat split. Qed.

Lemma on_components_same_lifecycle {A} (method : M (ComponentManager.t C) A) w r w' :
  on_components method w = (r, w') → same_lifecycle w w'.
Proof.
  unfold on_components. destruct (method (components w)) as [r0 c].
  intros [= _ <-]. by repeat split.
Qed.

(** The three ways a [destroyEntity] can go. *)
Lemma destroyEntity_cases id w :
  (entities w !! id = None ∧ destroyEntity id w = (Throw out_of_range, w)) ∨
  (∃ e r cm',
      entities w !! id = Some e ∧
      ComponentManager.removeEntity id (components w) = (r, cm') ∧
      r ≠ Ret tt ∧
      destroyEntity id w =
        (match r with Ret _ => Ret tt | Throw x => Throw x | Undefined => Undefined end,
         set_components cm' w)) ∨
  (∃ e cm',
      entities w !! id = Some e ∧
      ComponentManager.removeEntity id (components w) = (Ret tt, cm') ∧
      destroyEntity id w =
        (Ret tt,
         set_reusableIDs (reusableIDs w ++ [id])
           (set_entities (delete id (entities w)) (set_components cm' w)))).
Proof.
  unfold destroyEntity, bind, entities_at, on_components.
  destruct (entities w !! id) as [e|] eqn:He; [|by left].
  right.
  destruct (ComponentManager.removeEntity id (components w)) as [[[]| |] cm'] eqn:Hrm.
  - right. by exists e, cm'.
  - left. exists e, (Throw e0), cm'. by repeat split.
  - left. exists e, Undefined, cm'. by repeat split.
Qed.

(** X5. A [destroyEntity id] that returns has erased the facade of [id] and
    nothing else from the facade table, has kept the set of registered
    types, and has removed the row of [id] from each registered array:
    afterwards no array keys [id], and each registered vector is one row
    shorter. *)
Theorem destroyEntity_removes_entity_everywhere id w w' :
  destroyEntity id w = (Ret tt, w') →
  is_Some (entities w !! id) ∧
  entities w' = delete id (entities w) ∧
  dom (ComponentManager.componentVectors (components w')) =
    dom (ComponentManager.componentVectors (components w)) ∧
  ∀ T,
    ComponentVector.indexes (world_array T w') !! id = None ∧
    (is_Some (ComponentManager.componentVectors (components w) !! typekey T) →
     S (length (ComponentVector.components (world_array T w'))) =
       length (ComponentVector.components (world_array T w))).
Proof.
  intros (cm' & Hlive & Hrm & ->)%destroyEntity_returned.
  destruct (fan_out_removes_rows id _ _ Hrm) as [Hdom Hall].
  split; [done|]. split; [done|]. split; [done|].
  intros T. unfold world_array, array_of. simpl.
  destruct (ComponentManager.componentVectors (components w) !! typekey T) as [v|] eqn:Hv.
  - destruct (Hall _ _ Hv) as (v' & -> & _ & Hgone & Hlen). simpl. by split.
  - assert (ComponentManager.componentVectors cm' !! typekey T = None) as ->.
    { apply not_elem_of_dom. rewrite Hdom. by apply not_elem_of_dom. }
    split; [done|]. by intros [? ?].
Qed.

(** X6. [destroyEntity] of an id without a facade throws [out_of_range] and
    leaves the world as it was; and whenever [destroyEntity] throws, the
    facade table, the counter, the reuse pool and the world's own id are
    what they were: the entity is still there and its id is not released. *)
Theorem destroyEntity_that_throws_keeps_lifecycle id w :
  (entities w !! id = None → destroyEntity id w = (Throw out_of_range, w)) ∧
  (∀ e w', destroyEntity id w = (Throw e, w') → same_lifecycle w w').
Proof.
  split.
  - intros Hnone. destruct (destroyEntity_cases id w)
      as [[_ H]|[(e & r & cm' & He & _)|(e & cm' & He & _)]]; [done|congruence..].
  - intros e w' Hthrow.
    destruct (destroyEntity_cases id w)
      as [[_ H]|[(e0 & r & cm' & _ & _ & _ & H)|(e0 & cm' & _ & _ & H)]];
      rewrite H in Hthrow.
    + injection Hthrow as _ <-. apply same_lifecycle_refl.
    + injection Hthrow as _ <-. by repeat split.
    + discriminate.
Qed.

(** X7. [destroyEntity] never changes the live or the staged set of any
    array, whether it returns or throws: an id that was in one of the sets is
    still in it after its entity has been destroyed. *)
Theorem destroyEntity_keeps_entity_sets id w r w' :
  destroyEntity id w = (r, w') →
  r ≠ Undefined →
  ∀ T,
    ComponentVector.entities (world_array T w') = ComponentVector.entities (world_array T w) ∧
    ComponentVector.newEntities (world_array T w') =
      ComponentVector.newEntities (world_array T w).
Proof.
  intros Hd _ T.
  assert (Hcm : ∃ r0 cm', components w' = cm' ∧
            (cm' = components w ∨
             ComponentManager.removeEntity id (components w) = (r0, cm'))).
  { destruct (destroyEntity_cases id w)
      as [[_ H]|[(e0 & r0 & cm' & _ & Hrm & _ & H)|(e0 & cm' & _ & Hrm & H)]];
      rewrite H in Hd; injection Hd as _ <-; simpl.
    - exists (Ret tt), (components w). by split; [|left].
    - exists r0, cm'. by split; [|right].
    - exists (Ret tt), cm'. by split; [|right]. }
  destruct Hcm as (r0 & cm' & Hcm & [->|Hrm]); unfold world_array; rewrite Hcm; [done|].
  unfold ComponentManager.removeEntity in Hrm.
  destruct (components w) as [m]. simpl in Hrm.
  pose proof (fan_out_effect id _ m r0 cm' Hrm (typekey T)) as Heff.
  unfold array_of. simpl.
  destruct (m !! typekey T) as [v|].
  - destruct Heff as (v' & -> & Hl & Hs). by simpl.
  - by rewrite Heff.
Qed.
End destruction.

(** ** Calls on one type's array *)

Section typed_calls.
Context {C : Type}.
Implicit Types (w : ECSManager.t C) (T : TypeInfo) (id : N).
Import ECSManager.

Lemma groupEntities_on_array T w :
  groupEntities T w =
    (Ret tt, with_array T (ComponentVector.groupEntities (world_array T w)).2 w).
Proof.
  unfold groupEntities, on_components, ComponentManager.groupEntities.
  by rewrite method_on_array.
Qed.

Lemma with_array_same_lifecycle T v w : same_lifecycle w (with_array T v w).
Proof. by repeat split. Qed.

Lemma with_array_other_key T v w key :
  key ≠ typekey T →
  ComponentManager.componentVectors (components (with_array T v w)) !! key =
    ComponentManager.componentVectors (components w) !! key.
Proof. intros Hne. simpl. by rewrite lookup_insert_ne. Qed.

(** A call that goes to the array of [T] leaves the world as it is or
    replaces the array of [T]. *)
Lemma typed_step_shape (o : WorldTrace.op C) T w r w' :
  op_type o = Some T →
  WorldTrace.step o w = (r, w') →
  w' = w ∨ ∃ v, w' = with_array T v w.
Proof.
  intros HT Hstep.
  destruct o as [|id|T0 id c|T0 c|T0 id|T0|T0|T0|T0]; simpl in HT; try discriminate;
    injection HT as ->; simpl in Hstep; unfold WorldTrace.discard, bind in Hstep.
  - destruct (is_component T) eqn:Hmark.
    + rewrite addComponent_on_array in Hstep by done. injection Hstep as _ <-. eauto.
    + unfold addComponent in Hstep. rewrite Hmark in Hstep.
      injection Hstep as _ <-. by left.
  - unfold addComponent_self in Hstep. destruct (is_component T) eqn:Hmark.
    + rewrite addComponent_on_array in Hstep by done. injection Hstep as _ <-. eauto.
    + unfold addComponent in Hstep. rewrite Hmark in Hstep.
      injection Hstep as _ <-. by left.
  - rewrite getComponent_on_array in Hstep.
    destruct (ComponentVector.getComponent id (world_array T w)) as [[?| |] v];
      injection Hstep as _ <-; eauto.
  - unfold getComponent_self in Hstep. rewrite getComponent_on_array in Hstep.
    destruct (ComponentVector.getComponent (managerID w) (world_array T w)) as [[?| |] v];
      injection Hstep as _ <-; eauto.
  - destruct (is_component T) eqn:Hmark.
    + rewrite getComponentEntities_on_array in Hstep by done.
      injection Hstep as _ <-. eauto.
    + unfold getComponentEntities in Hstep. rewrite Hmark in Hstep.
      injection Hstep as _ <-. by left.
  - rewrite getNewComponentEntities_on_array in Hstep. injection Hstep as _ <-. eauto.
  - rewrite groupEntities_on_array in Hstep. injection Hstep as _ <-. eauto.
Qed.

(** What a call on the array of [T] leaves alone. *)
Lemma typed_step_frame (o : WorldTrace.op C) T w r w' :
  op_type o = Some T →
  WorldTrace.step o w = (r, w') →
  same_lifecycle w w' ∧
  (∀ key, key ≠ typekey T →
     ComponentManager.componentVectors (components w') !! key =
       ComponentManager.componentVectors (components w) !! key) ∧
  dom (ComponentManager.componentVectors (components w)) ⊆
    dom (ComponentManager.componentVectors (components w')) ∧
  dom (ComponentManager.componentVectors (components w')) ⊆
    {[typekey T]} ∪ dom (ComponentManager.componentVectors (components w)).
Proof.
  intros HT Hstep.
  destruct (typed_step_shape o T w r w' HT Hstep) as [->|[v ->]].
  - split; [apply same_lifecycle_refl|]. split; [done|]. set_solver.
  - split; [apply with_array_same_lifecycle|].
    split; [intros key; apply with_array_other_key|].
    simpl. rewrite dom_insert_L. set_solver.
Qed.

(** X8. A call of [addComponent<T>], [getComponent<T>],
    [getComponentEntities<T>], [getNewComponentEntities<T>] or
    [groupEntities<T>] (either overload) changes nothing but the array of
    [T], whether it returns or throws: the arrays registered under other
    keys are what they were, no type is unregistered and at most [T] is newly
    registered, and the facade table, the counter, the reuse pool and the
    world's own id are untouched. *)
Theorem typed_call_touches_one_array (o : WorldTrace.op C) T w r w' :
  op_type o = Some T →
  WorldTrace.step o w = (r, w') →
  r ≠ Undefined →
  same_lifecycle w w' ∧
  (∀ key, key ≠ typekey T →
     ComponentManager.componentVectors (components w') !! key =
       ComponentManager.componentVectors (components w) !! key) ∧
  dom (ComponentManager.componentVectors (components w)) ⊆
    dom (ComponentManager.componentVectors (components w')) ∧
  dom (ComponentManager.componentVectors (components w')) ⊆
    {[typekey T]} ∪ dom (ComponentManager.componentVectors (components w)).
Proof. intros HT Hstep _. by eapply typed_step_frame. Qed.
End typed_calls.

(** ** Allocation of ids *)

Section allocation.
Context {C : Type}.
Implicit Types (w : ECSManager.t C) (T : TypeInfo) (id : N).
Import ECSManager.

(** [createEntity] never throws: [entities.at(newID)] follows an insertion
    under [newID]. It returns the facade the table holds under the generated
    id, which is the new one unless the id already had a facade. *)
Lemma createEntity_generated w id w1 :
  generateEntityID w = (Ret id, w1) →
  createEntity w =
    (Ret (default {| entityID := id |} (entities w1 !! id)),
     set_entities (map_insert_new id {| entityID := id |} (entities w1)) w1).
Proof.
  intros Hgen. unfold createEntity, bind, entities_at. rewrite Hgen. simpl.
  by rewrite map_insert_new_lookup.
Qed.

Lemma generateEntityID_cases w :
  (∃ ids id, reusableIDs w = ids ++ [id] ∧
     generateEntityID w = (Ret id, set_reusableIDs ids w)) ∨
  (reusableIDs w = [] ∧
     generateEntityID w = (Ret (nextID w), set_nextID (wrap (nextID w + 1)) w)).
Proof.
  destruct (last (reusableIDs w)) as [id|] eqn:Hlast.
  - apply last_Some in Hlast as [ids Hids]. left. exists ids, id.
    split; [done|]. by apply generateEntityID_reuse.
  - apply last_None in Hlast. right. split; [done|]. by apply generateEntityID_next.
Qed.

Lemma well_allocated_same_lifecycle w w' :
  same_lifecycle w w' → well_allocated w → well_allocated w'.
Proof.
  intros (He & Hn & Hp & _) [H1 H2 H3 H4 H5].
  split; rewrite ?He, ?Hn, ?Hp; done.
Qed.

Lemma createEntity_well_allocated w :
  well_allocated w →
  nextID w + 1 < 2 ^ UNSIGNED_BITS →
  ∃ id w',
    createEntity w = (Ret {| entityID := id |}, w') ∧
    entities w !! id = None ∧
    entities w' = <[id := {| entityID := id |}]> (entities w) ∧
    components w' = components w ∧
    managerID w' = managerID w ∧
    well_allocated w' ∧
    nextID w ≤ nextID w' ≤ nextID w + 1.
Proof.
  intros [Hlive Hpool Hnd Hdead Hown] Hroom.
  destruct (generateEntityID_cases w) as [(ids & id & Hids & Hgen)|[Hnil Hgen]].
  - assert (Hin : id ∈ reusableIDs w) by (rewrite Hids; set_solver).
    pose proof (Hdead id Hin) as Hfree.
    exists id. eexists. rewrite (createEntity_generated _ _ _ Hgen). simpl.
    rewrite Hfree, map_insert_new_fresh by done. simpl.
    split; [done|]. split; [done|]. split; [done|]. split; [done|]. split; [done|].
    split; [|simpl; lia].
    rewrite Hids in Hnd. apply NoDup_app in Hnd as (Hnd & Hdisj & _).
    split; simpl.
    + intros j e. rewrite lookup_insert. case_decide; [|by apply Hlive].
      intros _. subst. by apply Hpool.
    + intros j Hj. apply Hpool. rewrite Hids. set_solver.
    + done.
    + intros j Hj. rewrite lookup_insert_ne.
      * apply Hdead. rewrite Hids. set_solver.
      * intros ->. apply (Hdisj j Hj). set_solver.
    + intros j e. rewrite lookup_insert. case_decide; [|by apply Hown].
      intros [= <-]. by subst.
  - assert (Hfree : entities w !! nextID w = None).
    { destruct (entities w !! nextID w) as [e|] eqn:He; [|done].
      apply Hlive in He. lia. }
    exists (nextID w). eexists. rewrite (createEntity_generated _ _ _ Hgen). simpl.
    rewrite Hfree, map_insert_new_fresh by done. simpl.
    rewrite (wrap_small _ Hroom).
    split; [done|]. split; [done|]. split; [done|]. split; [done|]. split; [done|].
    split; [|simpl; lia].
    split; simpl.
    + intros j e. rewrite lookup_insert. case_decide; [intros _; lia|].
      intros Hj%Hlive. lia.
    + rewrite Hnil. intros j Hj. by apply elem_of_nil in Hj.
    + done.
    + rewrite Hnil. intros j Hj. by apply elem_of_nil in Hj.
    + intros j e. rewrite lookup_insert. case_decide; [|by apply Hown].
      intros [= <-]. by subst.
Qed.

Lemma destroyEntity_well_allocated id w r w' :
  destroyEntity id w = (r, w') →
  well_allocated w →
  well_allocated w' ∧ nextID w' = nextID w.
Proof.
  intros Hd Hwa.
  destruct (destroyEntity_cases id w)
    as [[_ H]|[(e0 & r0 & cm' & _ & _ & _ & H)|(e0 & cm' & He0 & _ & H)]];
    rewrite H in Hd; injection Hd as _ <-.
  1, 2: by split; [apply (well_allocated_same_lifecycle w); [repeat split|]|].
  destruct Hwa as [Hlive Hpool Hnd Hdead Hown]. split; [|done]. split; simpl.
  - intros j e [_ Hj]%lookup_delete_Some. by eapply Hlive.
  - intros j [Hj| ->%list_elem_of_singleton]%elem_of_app; [by apply Hpool|by eapply Hlive].
  - apply NoDup_app. split; [done|]. split; [|apply NoDup_singleton].
    intros j Hj ->%list_elem_of_singleton. apply Hdead in Hj. congruence.
  - intros j [Hj| ->%list_elem_of_singleton]%elem_of_app.
    + destruct (decide (j = id)) as [->|Hne]; [by rewrite lookup_delete_eq|].
      rewrite lookup_delete_ne by done. by apply Hdead.
    + by rewrite lookup_delete_eq.
  - intros j e [_ Hj]%lookup_delete_Some. by eapply Hown.
Qed.

Lemma fresh_well_allocated : well_allocated (fresh (C:=C)).
Proof.
  split.
  - intros id e H. change (entities (fresh (C:=C))) with
      ({[0 := {| entityID := 0 |}]} : gmap N Entity) in H.
    apply lookup_singleton_Some in H as [<- _]. reflexivity.
  - intros id H. by apply elem_of_nil in H.
  - apply NoDup_nil_2.
  - intros id H. by apply elem_of_nil in H.
  - intros id e H. change (entities (fresh (C:=C))) with
      ({[0 := {| entityID := 0 |}]} : gmap N Entity) in H.
    by apply lookup_singleton_Some in H as [<- <-].
Qed.

(** X9. In a world whose lifecycle state is well allocated and whose counter
    is not at its last value, [createEntity] returns a facade whose id has no
    facade at that moment, be it reused or new; it stores the facade under
    that id and changes no other entry, no array and not the world's own id,
    and the world stays well allocated. *)
Theorem createEntity_returns_unused_id w :
  well_allocated w →
  nextID w + 1 < 2 ^ UNSIGNED_BITS →
  ∃ e w',
    createEntity w = (Ret e, w') ∧
    entities w !! getID e = None ∧
    entities w' = <[getID e := e]> (entities w) ∧
    components w' = components w ∧
    managerID w' = managerID w ∧
    well_allocated w'.
Proof.
  intros Hwa Hroom.
  destruct (createEntity_well_allocated w Hwa Hroom)
    as (id & w' & Hc & Hfree & Hents & Hcomp & Hself & Hwa' & _).
  by exists {| entityID := id |}, w'.
Qed.

Lemma step_well_allocated (o : WorldTrace.op C) w r w' :
  WorldTrace.step o w = (r, w') →
  well_allocated w →
  nextID w + 1 < 2 ^ UNSIGNED_BITS →
  well_allocated w' ∧ nextID w' ≤ nextID w + 1.
Proof.
  intros Hstep Hwa Hroom.
  destruct (op_type o) as [T|] eqn:HT.
  - destruct (typed_step_frame o T w r w' HT Hstep) as [Hsame _].
    split; [by eapply well_allocated_same_lifecycle|].
    destruct Hsame as (_ & -> & _). lia.
  - destruct o; try discriminate; simpl in Hstep.
    + destruct (createEntity_well_allocated w Hwa Hroom)
        as (id & w1 & Hc & _ & _ & _ & _ & Hwa' & Hn).
      unfold WorldTrace.discard, bind in Hstep. rewrite Hc in Hstep.
      injection Hstep as _ <-. split; [done|lia].
    + destruct (destroyEntity_well_allocated _ _ _ _ Hstep Hwa) as [? ->]. split; [done|lia].
Qed.

Lemma perform_well_allocated (ops : list (WorldTrace.op C)) :
  ∀ w w',
    well_allocated w →
    nextID w + N.of_nat (length ops) < 2 ^ UNSIGNED_BITS →
    WorldTrace.perform ops w = Some w' →
    well_allocated w'.
Proof.
  induction ops as [|o ops IH]; intros w w' Hwa Hroom Hrun; simpl in *.
  - by injection Hrun as <-.
  - destruct (WorldTrace.step o w) as [r w1] eqn:Hstep.
    destruct (step_well_allocated o w r w1 Hstep Hwa) as [Hwa1 Hn]; [lia|].
    assert (WorldTrace.perform ops w1 = Some w') by (by destruct r).
    apply (IH w1); [done|lia|done].
Qed.

(** X10. Whatever calls a caller makes on a fresh world to create and
    destroy entities and to add, read, query and promote components, in any
    order and going on after exceptions, as long as no call has undefined
    behaviour and they are fewer than [2^32 - 1]: at the end every facade is
    stored under its own id, so that no two live facades share an id, no id
    is at once live and in the reuse pool, the pool holds no id twice, and
    every id in use was handed out by the counter. *)
Theorem world_stays_well_allocated (ops : list (WorldTrace.op C)) w' :
  N.of_nat (length ops) + 1 < 2 ^ UNSIGNED_BITS →
  WorldTrace.perform ops fresh = Some w' →
  well_allocated w'.
Proof.
  intros Hlen Hrun.
  apply (perform_well_allocated ops fresh w' fresh_well_allocated); [|done].
  change (nextID (fresh (C:=C))) with 1. lia.
Qed.

(** X11. When the counter is at its last value [2^32 - 1] and the pool is
    empty, [createEntity] hands out [2^32 - 1] and the counter wraps to 0;
    the next [createEntity] hands out 0 although the entity 0 is live: it
    creates nothing and returns the facade that is already stored under 0. *)
Theorem createEntity_after_counter_wrapped w (e0 : Entity) :
  reusableIDs w = [] →
  nextID w = 2 ^ UNSIGNED_BITS - 1 →
  entities w !! 0 = Some e0 →
  entities w !! (2 ^ UNSIGNED_BITS - 1) = None →
  ∃ w',
    (call a <- createEntity; call b <- createEntity; ret (a, b)) w =
      (Ret ({| entityID := 2 ^ UNSIGNED_BITS - 1 |}, e0), w') ∧
    entities w' =
      <[2 ^ UNSIGNED_BITS - 1 := {| entityID := 2 ^ UNSIGNED_BITS - 1 |}]> (entities w) ∧
    nextID w' = 1 ∧
    reusableIDs w' = [].
Proof.
  intros Hnil Hlast Hzero Hfree.
  pose proof (generateEntityID_next w Hnil) as Hgen.
  rewrite Hlast, wrap_top in Hgen.
  pose proof (createEntity_generated _ _ _ Hgen) as Hfirst. simpl in Hfirst.
  rewrite Hfree, map_insert_new_fresh in Hfirst by done. simpl in Hfirst.
  set (w1 := set_entities _ _) in Hfirst.
  assert (Hgen1 : generateEntityID w1 = (Ret 0, set_nextID (wrap (0 + 1)) w1))
    by (by apply generateEntityID_next).
  assert (Hzero1 : entities (set_nextID (wrap (0 + 1)) w1) !! 0 = Some e0)
    by (subst w1; simpl; by rewrite lookup_insert_ne).
  pose proof (createEntity_generated _ _ _ Hgen1) as Hsecond.
  rewrite Hzero1, (map_insert_new_taken _ _ _ _ Hzero1) in Hsecond.
  unfold bind. rewrite Hfirst, Hsecond.
  eexists. split; [reflexivity|]. by repeat split.
Qed.
End allocation.

(** ** Compositions of the world's calls *)

Section compositions.
Context {C : Type}.
Implicit Types (w : ECSManager.t C) (T : TypeInfo) (id : N).
Import ECSManager.

(** X12. In any world and for any component type [T] and id,
    [addComponent<T>(id, c)] puts [id] into the set that
    [getNewComponentEntities<T>()] returns; after [groupEntities<T>()] the
    set of [getComponentEntities<T>()] is the previous live set together
    with the staged ids, [id] among them, and
    [getNewComponentEntities<T>()] returns the empty set. None of the calls
    throws. *)
Theorem added_entity_is_staged_then_live w T id (c : C) :
  is_component T = true →
  ∃ w',
    (exec addComponent T id c;
     call staged <- getNewComponentEntities T;
     exec groupEntities T;
     call live <- getComponentEntities T;
     call rest <- getNewComponentEntities T;
     ret (staged, live, rest)) w =
      (Ret ({[id]} ∪ ComponentVector.newEntities (world_array T w),
            ComponentVector.entities (world_array T w)
              ∪ ({[id]} ∪ ComponentVector.newEntities (world_array T w)),
            ∅),
       w').
Proof.
  intros HT. unfold bind.
  rewrite addComponent_on_array by done.
  rewrite getNewComponentEntities_on_array, world_array_with_array.
  rewrite groupEntities_on_array, world_array_with_array.
  rewrite getComponentEntities_on_array, world_array_with_array by done.
  rewrite getNewComponentEntities_on_array, world_array_with_array.
  simpl. eexists. reflexivity.
Qed.

(** X13. In a well-allocated world where the array of a component type
    [T] keys only ids that have a facade and has fewer than [2^32] rows, a
    facade obtained from [createEntity] can be given a component with
    [Entity::addComponent], and [getComponent<T>] for [Entity::getID] of the
    facade then yields that component. *)
Theorem created_facade_carries_its_component w T (c : C) :
  well_allocated w →
  nextID w + 1 < 2 ^ UNSIGNED_BITS →
  is_component T = true →
  (∀ id, entities w !! id = None → ComponentVector.indexes (world_array T w) !! id = None) →
  N.of_nat (length (ComponentVector.components (world_array T w))) < 2 ^ UNSIGNED_BITS →
  ∃ e w',
    (call e <- createEntity;
     exec EntityMethods.addComponent T c e;
     call x <- getComponent T (getID e);
     ret (e, x)) w = (Ret (e, c), w') ∧
    entities w !! getID e = None ∧
    entities w' !! getID e = Some e.
Proof.
  intros Hwa Hroom HT Hkeys Hlen.
  destruct (createEntity_well_allocated w Hwa Hroom)
    as (id & w1 & Hc & Hfree & Hents & Hcomp & _).
  assert (Harr : world_array T w1 = world_array T w)
    by (unfold world_array; by rewrite Hcomp).
  exists {| entityID := id |}.
  unfold bind. rewrite Hc. unfold EntityMethods.addComponent. rewrite HT. simpl.
  rewrite addComponent_on_array by done.
  rewrite getComponent_on_array, world_array_with_array, Harr.
  rewrite (addComponent_fresh _ _ c (Hkeys id Hfree) Hlen). simpl.
  erewrite getComponent_present; simpl.
  - eexists. split; [reflexivity|]. split; [done|]. simpl.
    by rewrite Hents, lookup_insert_eq.
  - apply lookup_insert_eq.
  - by rewrite Nat2N.id, lookup_app_r, Nat.sub_diag.
Qed.

(** X14. A [getComponent<T>(id)] that fails leaves a trap. When [T] is the
    only type that may be registered, its vector is empty and its index map
    does not key the live entity [id], the call throws [out_of_range] but
    has keyed [id] at slot 0; a [destroyEntity(id)] after that erases
    position 0 of the empty vector, which is undefined behaviour. *)
Theorem destroyEntity_after_failed_getComponent_is_undefined w T id (e : Entity) :
  entities w !! id = Some e →
  (∀ key, is_Some (ComponentManager.componentVectors (components w) !! key) →
     key = typekey T) →
  ComponentVector.components (world_array T w) = [] →
  ComponentVector.indexes (world_array T w) !! id = None →
  ∃ w1,
    getComponent T id w = (Throw out_of_range, w1) ∧
    ComponentVector.indexes (world_array T w1) !! id = Some 0 ∧
    ComponentVector.components (world_array T w1) = [] ∧
    (destroyEntity id w1).1 = Undefined.
Proof.
  intros He Honly Hrows Hfree. eexists.
  rewrite getComponent_on_array, (getComponent_absent _ _ Hfree), Hrows. simpl.
  split; [reflexivity|].
  rewrite world_array_with_array. simpl.
  split; [apply lookup_insert_eq|]. split; [done|].
  unfold destroyEntity, bind, entities_at, on_components. simpl. rewrite He.
  unfold ComponentManager.removeEntity, ComponentManager.keys. simpl.
  assert (Hdom : dom (<[typekey T :=
             ComponentVector.set_indexes
               (<[id:=0]> (ComponentVector.indexes (world_array T w))) (world_array T w)]>
             (ComponentManager.componentVectors (components w))) = {[typekey T]}).
  { rewrite dom_insert_L. apply set_eq. intros key.
    rewrite elem_of_union, elem_of_singleton, elem_of_dom. split; [|by left].
    intros [?|?]; [done|by apply Honly]. }
  rewrite Hdom, elements_singleton. simpl.
  unfold bind, ComponentManager.through. simpl.
  rewrite lookup_insert_eq.
  unfold ComponentVector.removeEntity. simpl.
  rewrite lookup_insert_eq, Hrows. reflexivity.
Qed.
End compositions.

(** ** A fan-out that fails *)

Section failed_fan_out.
Context {C : Type}.
Implicit Types (cm : ComponentManager.t C) (w : ECSManager.t C) (id : N).
Import ComponentManager.

Lemma fan_out_stops id key0 (post pre : list N) :
  ∀ (m : gmap N (ComponentVector.t C)) v0,
    NoDup (pre ++ key0 :: post) →
    (∀ key, key ∈ pre → ∃ v k,
        m !! key = Some v ∧ ComponentVector.indexes v !! id = Some k ∧
        k < N.of_nat (length (ComponentVector.components v))) →
    m !! key0 = Some v0 →
    ComponentVector.indexes v0 !! id = None →
    ∃ cm',
      for_each (pre ++ key0 :: post) (λ key, through key (ComponentVector.removeEntity id))
        {| componentVectors := m |} = (Throw out_of_range, cm') ∧
      (∀ key, key ∈ pre → ∃ v v',
          m !! key = Some v ∧
          ComponentVector.removeEntity id v = (Ret tt, v') ∧
          componentVectors cm' !! key = Some v') ∧
      (∀ key, key ∉ pre → componentVectors cm' !! key = m !! key).
Proof.
  induction pre as [|key pre IH]; intros m v0 Hnd Hpre Hv0 Hmiss; simpl.
  - unfold bind, through at 1. simpl. rewrite Hv0, (removeEntity_absent _ _ Hmiss).
    eexists. split; [reflexivity|]. simpl. split.
    + intros key Hin. by apply elem_of_nil in Hin.
    + intros key _. by rewrite insert_id.
  - simpl in Hnd. apply NoDup_cons in Hnd as [Hnotin Hnd].
    destruct (Hpre key) as (v & k & Hv & Hk & Hlt); [left|].
    unfold bind, through at 1. simpl.
    rewrite Hv, (removeEntity_present v id k Hk Hlt).
    assert (Hne0 : key ≠ key0) by (intros ->; apply Hnotin; set_solver).
    pose proof (removeEntity_present v id k Hk Hlt) as Hrm.
    set (v1 := ComponentVector.Build _ _ _ _) in Hrm.
    destruct (IH (<[key := v1]> m) v0 Hnd) as (cm' & Hrun & Hin & Hout).
    { intros key' Hin'. destruct (Hpre key') as (v' & k' & Hv' & Hk' & Hlt'); [by right|].
      exists v', k'. rewrite lookup_insert_ne; [done|]. intros ->. apply Hnotin. set_solver. }
    { by rewrite lookup_insert_ne. }
    { done. }
    exists cm'. split; [exact Hrun|]. split.
    + intros key' [->|Hin']%elem_of_cons.
      * exists v, v1. split; [done|]. split; [done|].
        rewrite Hout, lookup_insert_eq; [done|]. intros ?. apply Hnotin. set_solver.
      * destruct (Hin key' Hin') as (v' & v'' & Hv' & Hrm' & Hcm').
        exists v', v''. split; [|done].
        rewrite lookup_insert_ne in Hv'; [done|]. intros ->. apply Hnotin. set_solver.
    + intros key' [Hne Hnotin']%not_elem_of_cons.
      by rewrite (Hout key' Hnotin'), lookup_insert_ne.
Qed.

(** X15. [destroyEntity] is not all-or-nothing. Let [id] have a facade, let
    [key0] be a registered type key whose array does not key [id], and let
    every array registered under a smaller key hold [id] at a row. Then
    [destroyEntity id] throws [out_of_range]; the arrays under the smaller
    keys have lost the row of [id], the array under [key0] and the arrays
    under greater keys are untouched, and the facade table, the counter and
    the reuse pool are what they were. *)
Theorem destroyEntity_stops_at_first_array_without_entity w id (e : Entity) key0 v0 :
  ECSManager.entities w !! id = Some e →
  componentVectors (ECSManager.components w) !! key0 = Some v0 →
  ComponentVector.indexes v0 !! id = None →
  (∀ key v, key < key0 →
     componentVectors (ECSManager.components w) !! key = Some v →
     ∃ k, ComponentVector.indexes v !! id = Some k ∧
          k < N.of_nat (length (ComponentVector.components v))) →
  ∃ w',
    ECSManager.destroyEntity id w = (Throw out_of_range, w') ∧
    same_lifecycle w w' ∧
    (∀ key v, key < key0 →
       componentVectors (ECSManager.components w) !! key = Some v →
       ∃ v', ComponentVector.removeEntity id v = (Ret tt, v') ∧
             componentVectors (ECSManager.components w') !! key = Some v') ∧
    (∀ key, key0 ≤ key →
       componentVectors (ECSManager.components w') !! key =
         componentVectors (ECSManager.components w) !! key).
Proof.
  intros He Hv0 Hmiss Hbelow.
  destruct (ECSManager.components w) as [m] eqn:Hcm. simpl in *.
  assert (Hin0 : key0 ∈ keys {| componentVectors := m |}) by (apply elem_of_keys; eauto).
  apply list_elem_of_split in Hin0 as (pre & post & Hsplit).
  pose proof (keys_NoDup {| componentVectors := m |}) as Hnd.
  assert (Hsorted : StronglySorted N.le (keys {| componentVectors := m |}))
    by apply (StronglySorted_merge_sort N.le).
  rewrite Hsplit in Hnd, Hsorted.
  assert (Hpre_lt : ∀ key, key ∈ pre → key < key0).
  { intros key Hin.
    assert (key ≤ key0)
      by (eapply (StronglySorted_app_1_elem_of N.le); [done..|set_solver]).
    apply NoDup_app in Hnd as (_ & Hdisj & _).
    assert (key ≠ key0) by (intros ->; apply (Hdisj key0 Hin); set_solver). lia. }
  assert (Hpost_gt : ∀ key, key ∈ post → key0 < key).
  { intros key Hin. apply StronglySorted_app_1_r, StronglySorted_cons in Hsorted as [Hall _].
    rewrite Forall_forall in Hall. specialize (Hall key Hin).
    apply NoDup_app in Hnd as (_ & _ & [Hnotin _]%NoDup_cons).
    assert (key ≠ key0) by (by intros ->). lia. }
  assert (Hkeys : ∀ key, is_Some (m !! key) ↔ key ∈ pre ∨ key = key0 ∨ key ∈ post).
  { intros key. rewrite <- (elem_of_keys {| componentVectors := m |}), Hsplit.
    rewrite elem_of_app, elem_of_cons. done. }
  destruct (fan_out_stops id key0 post pre m v0 Hnd) as (cm' & Hrun & Hin & Hout);
    [|done|done|].
  { intros key Hkey. destruct (proj2 (Hkeys key)) as [v Hv]; [by left|].
    destruct (Hbelow key v (Hpre_lt key Hkey) Hv) as (k & ? & ?). by exists v, k. }
  exists (ECSManager.set_components cm' w). split; [|split; [by repeat split|split]].
  - unfold ECSManager.destroyEntity, bind, ECSManager.entities_at, ECSManager.on_components.
    rewrite He, Hcm. unfold removeEntity. simpl. by rewrite Hsplit, Hrun.
  - simpl. intros key v Hlt Hv.
    assert (Hkey : key ∈ pre).
    { destruct (proj1 (Hkeys key)) as [?|[->|Hpost]]; [eauto|done|lia|].
      apply Hpost_gt in Hpost. lia. }
    destruct (Hin key Hkey) as (v1 & v' & Hv1 & Hrm & Hcm').
    assert (v1 = v) as -> by congruence. eauto.
  - simpl. intros key Hle. apply Hout. intros Hkey%Hpre_lt. lia.
Qed.
End failed_fan_out.

(** ** Adding and removing again *)

Section add_remove.
Context {C : Type}.
Implicit Types (cv : ComponentVector.t C) (w : ECSManager.t C) (T : TypeInfo) (id : N).

(** Adding a row at the end and removing it again. *)
Lemma addComponent_removeEntity_restores cv id (c : C) :
  ComponentVector.indexes cv !! id = None →
  N.of_nat (length (ComponentVector.components cv)) < 2 ^ UNSIGNED_BITS →
  (∀ other v, ComponentVector.indexes cv !! other = Some v →
     v < N.of_nat (length (ComponentVector.components cv))) →
  ∃ cv1 cv2,
    ComponentVector.addComponent id c cv = (Ret tt, cv1) ∧
    ComponentVector.removeEntity id cv1 = (Ret tt, cv2) ∧
    ComponentVector.components cv2 = ComponentVector.components cv ∧
    ComponentVector.indexes cv2 = ComponentVector.indexes cv ∧
    ComponentVector.entities cv2 = ComponentVector.entities cv ∧
    ComponentVector.newEntities cv2 = {[id]} ∪ ComponentVector.newEntities cv.
Proof.
  intros Hfree Hlen Hin. eexists. eexists.
  split; [by apply addComponent_fresh|].
  split.
  { eapply removeEntity_present; simpl; [apply lookup_insert_eq|].
    rewrite length_app. simpl. lia. }
  simpl. split; [|split; [|done]].
  - rewrite Nat2N.id, delete_take_drop, take_app_length, drop_ge; [by rewrite app_nil_r|].
    rewrite length_app. simpl. lia.
  - rewrite delete_insert_eq, delete_id by done. apply map_eq. intros other.
    rewrite lookup_fmap.
    destruct (ComponentVector.indexes cv !! other) as [v|] eqn:Hv; simpl; [|done].
    apply Hin in Hv. unfold ComponentVector.shift_down.
    destruct (decide _); [lia|done].
Qed.

(** X16. On an array that does not key [id], has fewer than [2^32] rows and
    whose slots all lie inside the vector, [addComponent id c] followed by
    [removeEntity id] returns and restores the vector, the index map and the
    live set; the staged set keeps [id]. *)
Theorem addComponent_then_removeEntity cv id (c : C) :
  ComponentVector.indexes cv !! id = None →
  N.of_nat (length (ComponentVector.components cv)) < 2 ^ UNSIGNED_BITS →
  (∀ other v, ComponentVector.indexes cv !! other = Some v →
     v < N.of_nat (length (ComponentVector.components cv))) →
  ∃ cv1 cv2,
    ComponentVector.addComponent id c cv = (Ret tt, cv1) ∧
    ComponentVector.removeEntity id cv1 = (Ret tt, cv2) ∧
    ComponentVector.components cv2 = ComponentVector.components cv ∧
    ComponentVector.indexes cv2 = ComponentVector.indexes cv ∧
    ComponentVector.entities cv2 = ComponentVector.entities cv ∧
    ComponentVector.newEntities cv2 = {[id]} ∪ ComponentVector.newEntities cv.
Proof. intros Hfree Hlen Hin. by apply addComponent_removeEntity_restores. Qed.


End add_remove.

(** ** The further properties on sample arrays and worlds *)

Section instances.
Import ComponentVector Trace Scenario Sample.

(** X1 on the array with the row 7 of entity 1, for a component 9 of
    entity 2. *)
Lemma addComponent_then_getComponent_witness :
  indexes one_row !! 2 = None ∧
  ∃ cv',
    addComponent 2 9 one_row = (Ret tt, cv') ∧
    getComponent 2 cv' = (Ret 9, cv') ∧
    getComponent 1 cv' = (Ret 7, cv').
Proof.
  split; [reflexivity|].
  destruct (addComponent_then_getComponent one_row 2 9 eq_refl eq_refl)
    as (cv' & Hadd & Hget & Hother).
  exists cv'. split; [exact Hadd|]. split; [exact Hget|].
  exact (Hother 1 0 7 eq_refl eq_refl).
Defined.

(** X2 on the rows 0, 1, 2 of the entities 1, 2, 3: entity 3 reads 2 before
    and after the removal of entity 2. *)
Lemma removeEntity_keeps_other_components_witness :
  ∃ cv',
    removeEntity 2 (run [Add 1 0; Add 2 1; Add 3 2] (empty (T:=N))).2 = (Ret tt, cv') ∧
    getComponent 3 (run [Add 1 0; Add 2 1; Add 3 2] (empty (T:=N))).2 =
      (Ret 2, (run [Add 1 0; Add 2 1; Add 3 2] (empty (T:=N))).2) ∧
    getComponent 3 cv' = (Ret 2, cv').
Proof.
  apply (removeEntity_keeps_other_components
           (run [Add 1 0; Add 2 1; Add 3 2] (empty (T:=N))).2 2 1 3 2 2);
    [reflexivity|reflexivity|reflexivity|discriminate|reflexivity].
Defined.

(** X3 on a sequence that adds for 1, 2 and 3 and removes 1. *)
Lemma legal_sequence_reads_last_added_witness :
  legal [Add 1 10; Add 2 20; Remove 1; Add 3 30; Group] (empty (T:=N)) = true ∧
  ∃ cv,
    run [Add 1 10; Add 2 20; Remove 1; Add 3 30; Group] empty = (Ret tt, cv) ∧
    indexes cv !! 1 = None ∧
    getComponent 2 cv = (Ret 20, cv) ∧
    getComponent 3 cv = (Ret 30, cv).
Proof.
  split; [reflexivity|].
  destruct (legal_sequence_reads_last_added (T:=N)
              [Add 1 10; Add 2 20; Remove 1; Add 3 30; Group] eq_refl)
    as (cv & Hrun & Hall).
  exists cv. split; [exact Hrun|].
  split; [exact (Hall 1)|]. split; [exact (Hall 2)|exact (Hall 3)].
Defined.

(** X4 on the registry of the populated world, for entity 1, which both
    arrays key. *)
Lemma removeEntity_fan_out_witness :
  (ComponentManager.removeEntity 1 (ECSManager.components populated)).1 = Ret tt ∧
  dom (ComponentManager.componentVectors
         (ComponentManager.removeEntity 1 (ECSManager.components populated)).2) =
    dom (ComponentManager.componentVectors (ECSManager.components populated)) ∧
  ∃ v',
    ComponentManager.componentVectors
      (ComponentManager.removeEntity 1 (ECSManager.components populated)).2
      !! typekey Position = Some v' ∧
    indexes v' !! 1 = None ∧
    S (length (components v')) = length (components (world_array Position populated)).
Proof.
  split; [reflexivity|].
  destruct (removeEntity_fan_out_removes_every_row 1 (ECSManager.components populated)
              (ComponentManager.removeEntity 1 (ECSManager.components populated)).2 eq_refl)
    as [Hdom Hall].
  split; [exact Hdom|].
  destruct (Hall (typekey Position) (world_array Position populated) eq_refl)
    as (v' & Hv' & _ & Hgone & Hlen).
  exists v'. split; [exact Hv'|]. split; [exact Hgone|exact Hlen].
Defined.

(** X5 on the populated world: entity 1 is destroyed. *)
Lemma destroyEntity_removes_entity_everywhere_witness :
  (ECSManager.destroyEntity 1 populated).1 = Ret tt ∧
  ECSManager.entities (ECSManager.destroyEntity 1 populated).2 =
    delete 1 (ECSManager.entities populated) ∧
  indexes (world_array Position (ECSManager.destroyEntity 1 populated).2) !! 1 = None ∧
  indexes (world_array Velocity (ECSManager.destroyEntity 1 populated).2) !! 1 = None.
Proof.
  split; [reflexivity|].
  destruct (destroyEntity_removes_entity_everywhere 1 populated
              (ECSManager.destroyEntity 1 populated).2 eq_refl)
    as (_ & Hents & _ & Hall).
  split; [exact Hents|].
  split; [exact (proj1 (Hall Position))|exact (proj1 (Hall Velocity))].
Defined.

(** X6 on the populated world: entity 5 does not exist, and entity 2 has no
    [Velocity]. *)
Lemma destroyEntity_that_throws_witness :
  ECSManager.destroyEntity 5 populated = (Throw out_of_range, populated) ∧
  (ECSManager.destroyEntity 2 populated).1 = Throw out_of_range ∧
  same_lifecycle populated (ECSManager.destroyEntity 2 populated).2.
Proof.
  destruct (destroyEntity_that_throws_keeps_lifecycle 5 populated) as [Hunknown _].
  destruct (destroyEntity_that_throws_keeps_lifecycle 2 populated) as [_ Hthrows].
  split; [exact (Hunknown eq_refl)|]. split; [reflexivity|].
  exact (Hthrows out_of_range (ECSManager.destroyEntity 2 populated).2 eq_refl).
Defined.

(** X7 on the populated world: entity 1 is destroyed and stays in the staged
    sets of both arrays. *)
Lemma destroyEntity_keeps_entity_sets_witness :
  (ECSManager.destroyEntity 1 populated).1 = Ret tt ∧
  newEntities (world_array Position (ECSManager.destroyEntity 1 populated).2) =
    newEntities (world_array Position populated) ∧
  newEntities (world_array Position populated) = {[1; 2]} ∧
  newEntities (world_array Velocity (ECSManager.destroyEntity 1 populated).2) =
    newEntities (world_array Velocity populated).
Proof.
  split; [reflexivity|].
  pose proof (destroyEntity_keeps_entity_sets 1 populated (Ret tt)
                (ECSManager.destroyEntity 1 populated).2 eq_refl ltac:(discriminate))
    as Hall.
  split; [exact (proj2 (Hall Position))|]. split; [reflexivity|].
  exact (proj2 (Hall Velocity)).
Defined.

(** X8 on the populated world: a [Velocity] for entity 2 leaves the array
    of [Position] and the lifecycle state alone. *)
Lemma typed_call_touches_one_array_witness :
  same_lifecycle populated (WorldTrace.step (WorldTrace.AddComponent Velocity 2 5) populated).2 ∧
  ComponentManager.componentVectors
    (ECSManager.components (WorldTrace.step (WorldTrace.AddComponent Velocity 2 5) populated).2)
    !! typekey Position =
  ComponentManager.componentVectors (ECSManager.components populated) !! typekey Position.
Proof.
  destruct (typed_call_touches_one_array (WorldTrace.AddComponent Velocity 2 5) Velocity
              populated (Ret tt)
              (WorldTrace.step (WorldTrace.AddComponent Velocity 2 5) populated).2
              eq_refl eq_refl ltac:(discriminate))
    as (Hsame & Hother & _).
  split; [exact Hsame|]. apply Hother. discriminate.
Defined.

(** X9 on the fresh world. *)
Lemma createEntity_returns_unused_id_witness :
  ∃ e w',
    ECSManager.createEntity (ECSManager.fresh (C:=N)) = (Ret e, w') ∧
    ECSManager.entities (ECSManager.fresh (C:=N)) !! getID e = None ∧
    ECSManager.entities w' = <[getID e := e]> (ECSManager.entities (ECSManager.fresh (C:=N))) ∧
    well_allocated w'.
Proof.
  destruct (createEntity_returns_unused_id (ECSManager.fresh (C:=N))
              fresh_well_allocated eq_refl)
    as (e & w' & Hc & Hfree & Hents & _ & _ & Hwa).
  exists e, w'. split; [exact Hc|]. split; [exact Hfree|]. split; [exact Hents|exact Hwa].
Defined.

(** X10 on the sample calls, of which the third throws. *)
Lemma world_stays_well_allocated_witness :
  (WorldTrace.step (WorldTrace.DestroyEntity 5)
     (ECSManager.addComponent Position 1 7
        (ECSManager.createEntity ECSManager.fresh).2).2).1 = Throw out_of_range ∧
  ∃ w', WorldTrace.perform calls ECSManager.fresh = Some w' ∧ well_allocated w'.
Proof.
  split; [reflexivity|].
  assert (Hrun : ∃ w', WorldTrace.perform calls ECSManager.fresh = Some w')
    by (vm_compute; eexists; reflexivity).
  destruct Hrun as [w' Hrun]. exists w'. split; [exact Hrun|].
  exact (world_stays_well_allocated calls w' eq_refl Hrun).
Defined.

(** X11 on the fresh world with the counter at [2^32 - 1]. *)
Lemma createEntity_after_counter_wrapped_witness :
  ∃ w',
    (call a <- ECSManager.createEntity; call b <- ECSManager.createEntity; ret (a, b))
      exhausted =
      (Ret ({| entityID := 2 ^ UNSIGNED_BITS - 1 |}, {| entityID := 0 |}), w') ∧
    ECSManager.nextID w' = 1.
Proof.
  destruct (createEntity_after_counter_wrapped exhausted {| entityID := 0 |}
              eq_refl eq_refl eq_refl eq_refl)
    as (w' & Hrun & _ & Hnext & _).
  exists w'. split; [exact Hrun|exact Hnext].
Defined.

(** X12 on the fresh world: a [Position] for entity 1. *)
Lemma added_entity_is_staged_then_live_witness :
  ∃ w',
    (exec ECSManager.addComponent Position 1 7;
     call staged <- ECSManager.getNewComponentEntities Position;
     exec ECSManager.groupEntities Position;
     call live <- ECSManager.getComponentEntities Position;
     call rest <- ECSManager.getNewComponentEntities Position;
     ret (staged, live, rest)) (ECSManager.fresh (C:=N)) =
      (Ret ({[1]} ∪ ∅, ∅ ∪ ({[1]} ∪ ∅), ∅), w').
Proof.
  exact (added_entity_is_staged_then_live (ECSManager.fresh (C:=N)) Position 1 7 eq_refl).
Defined.

Lemma fresh_has_no_array (key : N) :
  ComponentManager.componentVectors (ECSManager.components (ECSManager.fresh (C:=N))) !! key
    = None.
Proof. apply lookup_empty. Qed.

(** X13 on the fresh world: the new entity gets a [Position] 7. *)
Lemma created_facade_carries_its_component_witness :
  ∃ e w',
    (call e <- ECSManager.createEntity;
     exec EntityMethods.addComponent Position 7 e;
     call x <- ECSManager.getComponent Position (getID e);
     ret (e, x)) (ECSManager.fresh (C:=N)) = (Ret (e, 7), w') ∧
    ECSManager.entities w' !! getID e = Some e.
Proof.
  destruct (created_facade_carries_its_component (ECSManager.fresh (C:=N)) Position 7
              fresh_well_allocated eq_refl eq_refl)
    as (e & w' & Hrun & _ & Hstored).
  { intros id _. apply lookup_empty. }
  { reflexivity. }
  exists e, w'. split; [exact Hrun|exact Hstored].
Defined.

(** X14 on the fresh world: [getComponent<Position>] for the world's own
    entity 0, then its destruction. *)
Lemma destroyEntity_after_failed_getComponent_witness :
  ∃ w1,
    ECSManager.getComponent Position 0 (ECSManager.fresh (C:=N)) = (Throw out_of_range, w1) ∧
    indexes (world_array Position w1) !! 0 = Some 0 ∧
    (ECSManager.destroyEntity 0 w1).1 = Undefined.
Proof.
  destruct (destroyEntity_after_failed_getComponent_is_undefined
              (ECSManager.fresh (C:=N)) Position 0 {| entityID := 0 |} eq_refl)
    as (w1 & Hget & Hkey & _ & Hundef).
  { intros key [v Hv]. rewrite fresh_has_no_array in Hv. discriminate Hv. }
  { reflexivity. }
  { reflexivity. }
  exists w1. split; [exact Hget|]. split; [exact Hkey|exact Hundef].
Defined.

(** X15 on the populated world: entity 2 has a [Position] and no
    [Velocity]; its destruction takes its row out of the array of
    [Position] and then throws. *)
Lemma destroyEntity_stops_witness :
  ∃ w',
    ECSManager.destroyEntity 2 populated = (Throw out_of_range, w') ∧
    same_lifecycle populated w' ∧
    (∃ v', removeEntity 2 (world_array Position populated) = (Ret tt, v') ∧
           ComponentManager.componentVectors (ECSManager.components w') !! typekey Position =
             Some v') ∧
    ComponentManager.componentVectors (ECSManager.components w') !! typekey Velocity =
      ComponentManager.componentVectors (ECSManager.components populated) !! typekey Velocity.
Proof.
  destruct (destroyEntity_stops_at_first_array_without_entity populated 2 {| entityID := 2 |}
              (typekey Velocity) (world_array Velocity populated) eq_refl eq_refl eq_refl)
    as (w' & Hthrow & Hsame & Hbelow & Hfrom).
  { intros key v Hlt Hv.
    assert (key = 0 ∨ key = 1) as [-> | ->] by (simpl in Hlt; lia).
    - discriminate Hv.
    - injection Hv as <-. exists 1. split; reflexivity. }
  exists w'. split; [exact Hthrow|]. split; [exact Hsame|]. split.
  - exact (Hbelow (typekey Position) (world_array Position populated) eq_refl eq_refl).
  - apply Hfrom. discriminate.
Defined.

(** X16 on the array with the row 7 of entity 1, for a component 9 of
    entity 2. *)
Lemma addComponent_then_removeEntity_witness :
  ∃ cv1 cv2,
    addComponent 2 9 one_row = (Ret tt, cv1) ∧
    removeEntity 2 cv1 = (Ret tt, cv2) ∧
    components cv2 = components one_row ∧
    indexes cv2 = indexes one_row ∧
    newEntities cv2 = {[2]} ∪ newEntities one_row.
Proof.
  destruct (addComponent_then_removeEntity one_row 2 9 eq_refl eq_refl)
    as (cv1 & cv2 & Hadd & Hrm & Hrows & Hidx & _ & Hstaged).
  { intros other v Hv. change (indexes one_row) with ({[1 := 0]} : gmap N N) in Hv.
    apply lookup_singleton_Some in Hv as [_ <-]. reflexivity. }
  exists cv1, cv2. split; [exact Hadd|]. split; [exact Hrm|]. split; [exact Hrows|].
  split; [exact Hidx|exact Hstaged].
Defined.

End instances.
